(** * Verification of the in-memory data service

    Shallow embedding of [src/services/data_service.py]: the
    [DataService] class (single dataset store, filtered query, job
    registry, background summarisation job) together with the part of
    the dataframe library it calls. *)

From Stdlib Require Import ZArith String Ascii Uint63 Floats.
From stdpp Require Import gmap strings list fin_maps pretty.

Local Open Scope Z_scope.
Local Open Scope string_scope.
Local Open Scope list_scope.

(** ** Python exceptions and fallible computations *)

Inductive Exception :=
| ValueError (msg : string)
| ZeroDivisionError (msg : string)
| KeyError (key : string)
| AttributeError (msg : string)
| RuntimeError (msg : string)
| FileNotFoundError (path : string)
| ColumnNotFoundError (column : string)
| ComputeError (msg : string)
| NoDataError (msg : string)
| OverflowError (msg : string).

(** [str(e)] as used by [_run_summary_job] to record a failure. *)
Definition str (e : Exception) : string :=
  match e with
  | ValueError msg | ZeroDivisionError msg | AttributeError msg
  | RuntimeError msg | ComputeError msg | NoDataError msg | OverflowError msg => msg
  | KeyError key => "'" ++ key ++ "'"
  | FileNotFoundError path => "No such file or directory: " ++ path
  | ColumnNotFoundError column => column
  end.

Inductive Exc (A : Type) :=
| Raise (e : Exception)
| Return (a : A).
Arguments Raise {A} e.
Arguments Return {A} a.

Global Instance Exc_ret : MRet Exc := λ A a, Return a.
Global Instance Exc_fmap : FMap Exc := λ A B f m,
  match m with
  | Raise e => Raise e
  | Return a => Return (f a)
  end.
Global Instance Exc_bind : MBind Exc := λ A B k m,
  match m with
  | Raise e => Raise e
  | Return a => k a
  end.

(** [for x in xs: acc = body acc x], stopping at the first exception. *)
Fixpoint for_each {A B} (body : A → B → Exc A) (acc : A) (xs : list B) : Exc A :=
  match xs with
  | [] => Return acc
  | x :: xs' => acc' ← body acc x; for_each body acc' xs'
  end.

(** ** Python dictionaries that keep insertion order *)

Definition Dict (A : Type) := list (string * A).

Fixpoint dict_get {A} (k : string) (d : Dict A) : option A :=
  match d with
  | [] => None
  | (k', v) :: d' => if String.eqb k' k then Some v else dict_get k d'
  end.

(** [d[k] = v]: an existing key keeps its position, a new key goes last. *)
Fixpoint dict_set {A} (k : string) (v : A) (d : Dict A) : Dict A :=
  match d with
  | [] => [(k, v)]
  | (k', v') :: d' =>
      if String.eqb k' k then (k', v) :: d' else (k', v') :: dict_set k v d'
  end.

Definition keys {A} (d : Dict A) : list string := d.*1.

(** Substring test of Python's [in] and of [str.contains(literal=True)]. *)
Fixpoint contains (s pat : string) : bool :=
  String.prefix pat s ||
  match s with
  | EmptyString => false
  | String _ s' => contains s' pat
  end.

(** ** The dataframe library, as far as the service uses it *)

Module pl.

Inductive DataType :=
| Int8 | Int16 | Int32 | Int64 | Int128
| UInt8 | UInt16 | UInt32 | UInt64
| Float32 | Float64 | Utf8 | Boolean.

Definition dtype_str (t : DataType) : string :=
  match t with
  | Int8 => "Int8" | Int16 => "Int16" | Int32 => "Int32" | Int64 => "Int64"
  | Int128 => "Int128"
  | UInt8 => "UInt8" | UInt16 => "UInt16" | UInt32 => "UInt32" | UInt64 => "UInt64"
  | Float32 => "Float32" | Float64 => "Float64"
  | Utf8 => "String" | Boolean => "Boolean"
  end.

(** A non-null cell.  A floating-point cell is carried by the text the
    library renders for it: no arithmetic on floats is modelled, and
    the only operation the service applies to such a cell is the cast
    to text. *)
Inductive Value :=
| VInt (z : Z)
| VFloat (repr : string)
| VStr (s : string)
| VBool (b : bool).

Definition Cell := option Value.

Record Series := mkSeries {
  name : string;
  dtype : DataType;
  values : list Cell
}.

Definition with_values (vs : list Cell) (s : Series) : Series :=
  {| name := name s; dtype := dtype s; values := vs |}.

(** A frame is its columns, in schema order. *)
Definition DataFrame := list Series.

(** A row rendered by [to_dicts]: column name to cell, in schema order. *)
Definition Row := Dict Cell.

Definition columns (df : DataFrame) : list string := name <$> df.
Definition dtypes (df : DataFrame) : list DataType := dtype <$> df.

Definition height (df : DataFrame) : nat :=
  match df with
  | [] => 0%nat
  | s :: _ => length (values s)
  end.

Definition width (df : DataFrame) : nat := length df.

Definition shape (df : DataFrame) : nat * nat := (height df, width df).

(** The frames the library builds: unique column names, columns of one
    length. *)
Definition wf (df : DataFrame) : Prop :=
  NoDup (columns df) ∧ Forall (λ s, length (values s) = height df) df.

(** [head(n)]: the first [n] rows; for a negative [n], all rows but
    the last [|n|].  The row count is handed to the native code as an
    unsigned 64-bit integer: the conversion of an [n] of 2^64 or more
    raises. *)
Definition head_len (n : Z) (len : nat) : nat :=
  if (0 <=? n)%Z then Z.to_nat n else (len - Z.to_nat (- n))%nat.

Definition head_frame (n : Z) (df : DataFrame) : DataFrame :=
  (λ s, with_values (take (head_len n (length (values s))) (values s)) s) <$> df.

Definition USIZE_LIMIT : Z := 2 ^ 64.

Definition head (n : Z) (df : DataFrame) : Exc DataFrame :=
  if (USIZE_LIMIT <=? n)%Z then Raise (OverflowError "int too big to convert")
  else Return (head_frame n df).

(** [to_dicts]: one record per row. *)
Definition heads (df : DataFrame) : Row :=
  (λ s, (name s, hd None (values s))) <$> df.

Definition tails (df : DataFrame) : DataFrame :=
  (λ s, with_values (tail (values s)) s) <$> df.

Fixpoint rows_of (n : nat) (df : DataFrame) : list Row :=
  match n with
  | O => []
  | S n' => heads df :: rows_of n' (tails df)
  end.

Definition to_dicts (df : DataFrame) : list Row := rows_of (height df) df.

(** [pl.col(c)] evaluated on a frame. *)
Fixpoint col (c : string) (df : DataFrame) : Exc Series :=
  match df with
  | [] => Raise (ColumnNotFoundError c)
  | s :: df' => if String.eqb (name s) c then Return s else col c df'
  end.

(** [.cast(pl.Utf8)]: nulls stay null. *)
Definition to_utf8 (v : Value) : string :=
  match v with
  | VInt z => pretty z
  | VFloat repr => repr
  | VStr s => s
  | VBool true => "true"
  | VBool false => "false"
  end.

Definition cast_utf8 (s : Series) : list (option string) :=
  fmap (M := option) to_utf8 <$> values s.

(** [.str.contains(val, literal=True)]: null on a null cell. *)
Definition str_contains (val : string) (xs : list (option string)) : list (option bool) :=
  fmap (M := option) (λ x, contains x val) <$> xs.

(** [df.filter(mask)] keeps the rows whose mask entry is [true]; a
    null entry drops the row. *)
Fixpoint keep {A} (mask : list (option bool)) (xs : list A) : list A :=
  match mask, xs with
  | Some true :: mask', x :: xs' => x :: keep mask' xs'
  | _ :: mask', _ :: xs' => keep mask' xs'
  | _, _ => []
  end.

Definition filter (mask : list (option bool)) (df : DataFrame) : DataFrame :=
  (λ s, with_values (keep mask (values s)) s) <$> df.

(** [.is_null().sum()] of a column. *)
Definition null_count (s : Series) : nat :=
  length (List.filter (λ c : Cell, match c with None => true | Some _ => false end) (values s)).

End pl.

Global Instance DataType_eq_dec : EqDecision pl.DataType.
Proof. solve_decision. Defined.
Global Instance Value_eq_dec : EqDecision pl.Value.
Proof. solve_decision. Defined.

(** *** Delimited payloads

    [pl.read_csv] itself is library code and is taken through the
    interface below.  What is defined here is the reading of the
    payloads on which its result is pinned down: lines ended by a line
    feed or by a carriage return and a line feed (the last line may
    lack its terminator), fields separated by commas, no quoting,
    distinct non-empty header names, no empty line, and no record with
    more fields than the header.  A record with fewer fields is
    completed with nulls by the library. *)

Fixpoint split_on (sep : ascii) (s : string) : list string :=
  match s with
  | EmptyString => [EmptyString]
  | String c s' =>
      if Ascii.eqb c sep then EmptyString :: split_on sep s'
      else match split_on sep s' with
           | x :: xs => String c x :: xs
           | [] => [String c EmptyString]
           end
  end.

Definition LF : ascii := ascii_of_nat 10.
Definition CR : ascii := ascii_of_nat 13.
Definition DQUOTE : ascii := ascii_of_nat 34.
Definition COMMA : ascii := ascii_of_nat 44.

Fixpoint has_char (c : ascii) (s : string) : bool :=
  match s with
  | EmptyString => false
  | String c' s' => Ascii.eqb c' c || has_char c s'
  end.

(** A line without the carriage return that precedes its line feed. *)
Fixpoint strip_cr (l : string) : string :=
  match l with
  | EmptyString => EmptyString
  | String c l' =>
      match l' with
      | EmptyString => if Ascii.eqb c CR then EmptyString else l
      | _ => String c (strip_cr l')
      end
  end.

(** Every piece but the last was ended by a line feed. *)
Fixpoint strip_crs (pieces : list string) : list string :=
  match pieces with
  | [] => []
  | [l] => [l]
  | l :: rest => strip_cr l :: strip_crs rest
  end.

Definition drop_trailing_blank (ls : list string) : list string :=
  match reverse ls with
  | EmptyString :: rest => reverse rest
  | _ => ls
  end.

Definition csv_lines (payload : string) : list string :=
  drop_trailing_blank (strip_crs (split_on LF payload)).

Definition csv_header (payload : string) : list string :=
  split_on COMMA (hd EmptyString (csv_lines payload)).

Definition csv_records (payload : string) : list (list string) :=
  split_on COMMA <$> tail (csv_lines payload).

Definition nonempty (s : string) : bool := negb (String.eqb s EmptyString).

Definition plain (payload : string) : bool :=
  negb (has_char DQUOTE payload)
  && forallb (λ l, negb (has_char CR l)) (csv_lines payload)
  && negb (bool_decide (csv_lines payload = []))
  && forallb nonempty (csv_lines payload)
  && forallb nonempty (csv_header payload)
  && bool_decide (NoDup (csv_header payload))
  && forallb (λ r, length r <=? length (csv_header payload))%nat (csv_records payload).

(** The text of a table: fields joined by commas, lines by line feeds. *)
Fixpoint join (sep : ascii) (parts : list string) : string :=
  match parts with
  | [] => EmptyString
  | [x] => x
  | x :: rest => x ++ String sep (join sep rest)
  end.

Definition render (header : list string) (rows : list (list string)) : string :=
  join LF (join COMMA <$> header :: rows).

(** A field that needs no quoting. *)
Definition bare (f : string) : bool :=
  negb (has_char COMMA f) && negb (has_char LF f)
  && negb (has_char CR f) && negb (has_char DQUOTE f).

(** A table whose text is a plain payload: distinct non-empty header
    names, and records of at least one and at most as many fields as
    the header, none of them a single empty field. *)
Definition plain_table (header : list string) (rows : list (list string)) : bool :=
  negb (bool_decide (header = []))
  && forallb bare header && forallb nonempty header
  && bool_decide (NoDup header)
  && forallb (λ r, negb (bool_decide (r = [])) && forallb bare r
                   && negb (bool_decide (r = [EmptyString]))
                   && (length r <=? length header)%nat) rows.

(** The number of records from which [read_csv] infers the column
    types, by default. *)
Definition INFER_SCHEMA_LENGTH : nat := 100.

(** Field [j] of a record: the empty field where the record is short. *)
Definition field (j : nat) (r : list string) : string := nth j r EmptyString.

(** The frame built from the header fields [hs] and the records [rs]
    with the column inference [infer]: column [j] is inferred from
    field [j] of every record. *)
Definition frame_with (infer : string → list string → pl.Series)
    (hs : list string) (rs : list (list string)) : pl.DataFrame :=
  imap (λ j h, infer h (field j <$> rs)) hs.

(** What the service needs from the library beyond the operations
    defined above.  The library leaves the row order of [value_counts]
    unspecified unless sorting is requested, and [describe] computes
    floating-point statistics; both are taken through this interface,
    with the guarantees the library documents. *)

Definition occurrences (v : pl.Cell) (vs : list pl.Cell) : nat :=
  length (filter (v =.) vs).

(** The frame [value_counts] returns for the table [t]: the values under
    the column's own name, the counts under ["count"]. *)
Definition counts_frame (s : pl.Series) (t : list (pl.Cell * nat)) : pl.DataFrame :=
  [ pl.with_values t.*1 s;
    pl.mkSeries "count" pl.UInt32 ((λ n : nat, Some (pl.VInt (Z.of_nat n))) <$> t.*2) ].

(** [t] lists every distinct value of [vs] once, with its number of
    occurrences. *)
Definition count_table (vs : list pl.Cell) (t : list (pl.Cell * nat)) : Prop :=
  NoDup t.*1 ∧ ∀ v n, (v, n) ∈ t ↔ v ∈ vs ∧ n = occurrences v vs.

Class Backend := {
  (** type inference of [read_csv] for one column, from its header name
      and its fields (an empty field is a missing value) *)
  infer_column : string → list string → pl.Series;
  infer_column_name : ∀ h fs, pl.name (infer_column h fs) = h;
  infer_column_length : ∀ h fs, length (pl.values (infer_column h fs)) = length fs;
  (** [pl.read_csv] on the content of a file: whatever it returns is a
      frame, an empty file is refused, a plain payload is read column
      by column, and it is read when the type inference sees all of its
      records *)
  read_text : string → Exc pl.DataFrame;
  read_text_wf : ∀ payload df, read_text payload = Return df → pl.wf df;
  read_text_empty : ∃ msg, read_text EmptyString = Raise (NoDataError msg);
  read_text_plain : ∀ payload df,
    plain payload = true → read_text payload = Return df →
    df = frame_with infer_column (csv_header payload) (csv_records payload);
  read_text_inferred : ∀ payload,
    plain payload = true →
    (length (csv_records payload) ≤ INFER_SCHEMA_LENGTH)%nat →
    ∃ df, read_text payload = Return df;
  (** [DataFrame.describe()] *)
  describe : pl.DataFrame → Exc pl.DataFrame;
  (** [Series.value_counts()], called without [sort] *)
  value_counts : pl.Series → Exc pl.DataFrame;
  value_counts_table : ∀ s f,
    value_counts s = Return f → ∃ t, f = counts_frame s t ∧ count_table (pl.values s) t
}.

Section Service.
Context `{Backend}.

Definition frame_of (hs : list string) (rs : list (list string)) : pl.DataFrame :=
  frame_with infer_column hs rs.

(** [pl.read_csv(file_path)] over a file store. *)
Definition read_csv (files : gmap string string) (file_path : string) : Exc pl.DataFrame :=
  match files !! file_path with
  | None => Raise (FileNotFoundError file_path)
  | Some payload => read_text payload
  end.

(** [df.select(cols)] *)
Definition select (cols : list string) (df : pl.DataFrame) : Exc pl.DataFrame :=
  mapM (λ c, pl.col c df) cols.

(** ** The service *)

Inductive JobStatus := pending | running | completed | failed.

Definition status_str (s : JobStatus) : string :=
  match s with
  | pending => "pending" | running => "running"
  | completed => "completed" | failed => "failed"
  end.

Inductive BasicStatistics :=
| NoNumericColumns (message : string)
| Statistics (rows : list pl.Row).

(** The percentage is a Python float: a binary64 number. *)
Record MissingValues := {
  null_count : Z;
  null_percentage : float
}.

Inductive Distribution :=
| Counts (rows : list pl.Row)
| DistributionError (error : string).

Record SummaryResult := {
  basic_statistics : BasicStatistics;
  missing_values : Dict MissingValues;
  distributions : Dict Distribution
}.

Record Job := {
  status : JobStatus;
  created_at : string;
  completed_at : option string;
  result : option SummaryResult;
  error : option string
}.

Record DataService := {
  data : option pl.DataFrame;
  jobs : gmap string Job
}.

(** [DataService.__init__] *)
Definition init : DataService := {| data := None; jobs := ∅ |}.

(** [load_csv_async]: the new frame replaces the held one only when
    the read succeeds. *)
Definition load_csv_async (self : DataService) (files : gmap string string)
    (file_path : string) : Exc (DataService * pl.DataFrame) :=
  df ← read_csv files file_path;
  Return ({| data := Some df; jobs := jobs self |}, df).

Record Schema := {
  schema_columns : list string;
  schema_dtypes : Dict string;
  schema_shape : nat * nat;
  sample_data : list pl.Row
}.

Definition get_schema (self : DataService) : Exc Schema :=
  match data self with
  | None => Raise (ValueError "No data loaded")
  | Some df =>
      sample ← pl.head 5 df;
      Return {| schema_columns := pl.columns df;
                schema_dtypes :=
                  foldl (λ d '(c, t), dict_set c (pl.dtype_str t) d) []
                        (zip (pl.columns df) (pl.dtypes df));
                schema_shape := pl.shape df;
                sample_data := pl.to_dicts sample |}
  end.

Record Filter := {
  column : string;
  value : string
}.

(** The body of the loop of [query_data]: one filter applied to the
    current frame. *)
Definition apply_filter (df : pl.DataFrame) (filter_item : Filter) : Exc pl.DataFrame :=
  let col := column filter_item in
  let val := value filter_item in
  if bool_decide (col ∈ pl.columns df)
  then s ← pl.col col df;
       Return (pl.filter (pl.str_contains val (pl.cast_utf8 s)) df)
  else Return df.

Definition query_data (self : DataService) (filters : list Filter) (limit : Z)
    : Exc (list pl.Row) :=
  match data self with
  | None => Raise (ValueError "No data loaded")
  | Some df0 =>
      df ← for_each apply_filter df0 filters;
      first ← pl.head limit df;
      Return (pl.to_dicts first)
  end.

(** ** Summarisation *)

(** [self.data.<attribute>]: an attribute access on [None] raises. *)
Definition held (self : DataService) (attribute : string) : Exc pl.DataFrame :=
  match data self with
  | None => Raise (AttributeError ("'NoneType' object has no attribute '" ++ attribute ++ "'"))
  | Some df => Return df
  end.

Definition is_numeric (t : pl.DataType) : bool :=
  bool_decide (t ∈ [pl.Float64; pl.Float32; pl.Int64; pl.Int32]).

Definition _get_basic_statistics (self : DataService) : Exc BasicStatistics :=
  df ← held self "columns";
  let numeric_cols :=
    (zip (pl.columns df) (pl.dtypes df)) ≫= (λ '(col, dtype), if is_numeric dtype then [col] else []) in
  match numeric_cols with
  | [] => Return (NoNumericColumns "No numeric columns found")
  | _ => selected ← select numeric_cols df;
         stats ← describe selected;
         Return (Statistics (pl.to_dicts stats))
  end.

(** The float of a Python integer.  The integers the service converts
    are row counts and the literal [100]: they are below 2^53, where
    the conversion is exact. *)
Definition to_float (z : Z) : float := PrimFloat.of_uint63 (Uint63.of_Z z).

(** Python's [/] on integers: the quotient rounded to the nearest
    float, which for operands below 2^53 is the float division of
    their floats. *)
Definition truediv (a b : Z) : Exc float :=
  if (b =? 0)%Z then Raise (ZeroDivisionError "division by zero")
  else Return (PrimFloat.div (to_float a) (to_float b)).

Definition _get_missing_values (self : DataService) : Exc (Dict MissingValues) :=
  df ← held self "columns";
  for_each (λ missing col,
      s ← pl.col col df;
      let null_count := Z.of_nat (pl.null_count s) in
      ratio ← truediv null_count (Z.of_nat (pl.shape df).1);
      Return (dict_set col {| null_count := null_count;
                              null_percentage := PrimFloat.mul ratio (to_float 100) |} missing))
    [] (pl.columns df).

(** The body of the [try] for one column. *)
Definition distribution_of (df : pl.DataFrame) (col : string) : Exc Distribution :=
  s ← pl.col col df;
  value_counts ← value_counts s;
  first ← pl.head 10 value_counts;
  Return (Counts (pl.to_dicts first)).

Definition _get_distributions (self : DataService) : Exc (Dict Distribution) :=
  df ← held self "columns";
  Return (foldl (λ distributions col,
             match distribution_of df col with
             | Return d => dict_set col d distributions
             | Raise _ =>
                 dict_set col (DistributionError "Could not compute distribution") distributions
             end) [] (take 5 (pl.columns df))).

(** The three summaries of [_run_summary_job], in its order. *)
Definition summarize (self : DataService) : Exc SummaryResult :=
  basic_stats ← _get_basic_statistics self;
  missing_values ← _get_missing_values self;
  distributions ← _get_distributions self;
  Return {| basic_statistics := basic_stats;
            missing_values := missing_values;
            distributions := distributions |}.

(** ** Jobs *)

(** [create_summary_job]: the record is stored first, then the task is
    handed to the event loop; [asyncio.create_task] raises when no loop
    is running, and the record stays.  [job_id] is the drawn uuid and
    [now] the clock reading. *)
Definition create_summary_job (self : DataService) (job_id now : string)
    (loop_running : bool) : DataService * Exc string :=
  let self' :=
    {| data := data self;
       jobs := <[job_id := {| status := pending; created_at := now;
                              completed_at := None; result := None;
                              error := None |}]> (jobs self) |} in
  (self', if loop_running then Return job_id
          else Raise (RuntimeError "no running event loop")).

(** [self.jobs[job_id]] followed by an in-place change of the record. *)
Definition mutate (job_id : string) (f : Job → Job) (self : DataService) : Exc DataService :=
  match jobs self !! job_id with
  | None => Raise (KeyError job_id)
  | Some job => Return {| data := data self; jobs := <[job_id := f job]> (jobs self) |}
  end.

Definition set_running (job : Job) : Job :=
  {| status := running; created_at := created_at job;
     completed_at := completed_at job; result := result job; error := error job |}.

(** [.update({status, completed_at, result})] *)
Definition set_completed (now : string) (r : SummaryResult) (job : Job) : Job :=
  {| status := completed; created_at := created_at job;
     completed_at := Some now; result := Some r; error := error job |}.

(** [.update({status, completed_at, error})] *)
Definition set_failed (now : string) (e : Exception) (job : Job) : Job :=
  {| status := failed; created_at := created_at job;
     completed_at := Some now; result := result job; error := Some (str e) |}.

(** The [except Exception as e] clause. *)
Definition on_exception (job_id now : string) (e : Exception) (self : DataService)
    : Exc DataService :=
  mutate job_id (set_failed now e) self.

(** Where the coroutine stands when it gives control back. *)
Inductive Outcome :=
| Sleeping (self : DataService)
| Finished (self : DataService).

(** [_run_summary_job] from its start to [await asyncio.sleep(2)]. *)
Definition _run_summary_job_begin (self : DataService) (job_id now : string) : Exc Outcome :=
  match mutate job_id set_running self with
  | Raise e => Finished <$> on_exception job_id now e self
  | Return self1 =>
      match data self1 with
      | None => Finished <$> on_exception job_id now (ValueError "No data loaded") self1
      | Some _ => Return (Sleeping self1)
      end
  end.

(** [_run_summary_job] from the wake-up to its end. *)
Definition _run_summary_job_resume (self : DataService) (job_id now : string)
    : Exc DataService :=
  match summarize self with
  | Raise e => on_exception job_id now e self
  | Return result =>
      match mutate job_id (set_completed now result) self with
      | Raise e => on_exception job_id now e self
      | Return self' => Return self'
      end
  end.

Definition get_job_status (self : DataService) (job_id : string) : Exc Job :=
  match jobs self !! job_id with
  | None => Raise (ValueError "Job not found")
  | Some job => Return job
  end.

(** ** The service under the event loop

    The loop runs one piece of code at a time and switches only at an
    [await]; a world is the service together with the stage of every
    task created so far. *)

Inductive Stage := Scheduled | Asleep | Ended.

Record World := {
  service : DataService;
  tasks : gmap string Stage
}.

Inductive Event :=
| Loaded (df : pl.DataFrame)
| Create (job_id now : string) (loop_running : bool)
| Begin (job_id now : string)
| Wake (job_id now : string).

(** One event; [None] when it cannot happen in this world.  A drawn
    uuid is never one drawn before. *)
Definition exec (w : World) (ev : Event) : option World :=
  match ev with
  | Loaded df =>
      Some {| service := {| data := Some df; jobs := jobs (service w) |};
              tasks := tasks w |}
  | Create job_id now loop_running =>
      match jobs (service w) !! job_id with
      | Some _ => None
      | None =>
          let '(self', r) := create_summary_job (service w) job_id now loop_running in
          Some {| service := self';
                  tasks := match r with
                           | Return _ => <[job_id := Scheduled]> (tasks w)
                           | Raise _ => tasks w
                           end |}
      end
  | Begin job_id now =>
      match tasks w !! job_id with
      | Some Scheduled =>
          match _run_summary_job_begin (service w) job_id now with
          | Return (Sleeping self') =>
              Some {| service := self'; tasks := <[job_id := Asleep]> (tasks w) |}
          | Return (Finished self') =>
              Some {| service := self'; tasks := <[job_id := Ended]> (tasks w) |}
          | Raise _ =>
              Some {| service := service w; tasks := <[job_id := Ended]> (tasks w) |}
          end
      | _ => None
      end
  | Wake job_id now =>
      match tasks w !! job_id with
      | Some Asleep =>
          match _run_summary_job_resume (service w) job_id now with
          | Return self' =>
              Some {| service := self'; tasks := <[job_id := Ended]> (tasks w) |}
          | Raise _ =>
              Some {| service := service w; tasks := <[job_id := Ended]> (tasks w) |}
          end
      | _ => None
      end
  end.

Fixpoint run (w : World) (evs : list Event) : option World :=
  match evs with
  | [] => Some w
  | ev :: evs' => w' ← exec w ev; run w' evs'
  end.

Definition world0 : World := {| service := init; tasks := ∅ |}.

Definition reachable (w : World) : Prop := ∃ evs, run world0 evs = Some w.
End Service.

(** ** The controller and the router

    [HealthController] turns the exceptions of the service into HTTP
    errors; the router validates the query parameters before it calls
    the controller. *)

(** What an endpoint answers: a body (status 200), an [HTTPException],
    or the rejection of a query parameter by the framework (status
    422). *)
Inductive Response (A : Type) :=
| OK (body : A)
| HTTPException (status_code : Z) (detail : string)
| RequestValidationError (param : string).
Arguments OK {A} body.
Arguments HTTPException {A} status_code detail.
Arguments RequestValidationError {A} param.

Definition status_code_of {A} (r : Response A) : Z :=
  match r with
  | OK _ => 200
  | HTTPException status_code _ => status_code
  | RequestValidationError _ => 422
  end.

(** [s.endswith(suffix)] *)
Definition endswith (s suffix : string) : bool :=
  (String.length suffix <=? String.length s)%nat
  && String.eqb (substring (String.length s - String.length suffix)
                           (String.length suffix) s) suffix.

Module health_controller.

Record UploadFile := {
  filename : string;
  content : string
}.

(** The fields of [UploadResponse]. *)
Record UploadResponse := {
  message : string;
  uploaded_filename : string;
  rows : nat;
  columns : nat
}.

(** The body [{"data": ..., "count": ...}] of the two query endpoints. *)
Record QueryResult := {
  result_data : list pl.Row;
  result_count : nat
}.

(** The fields of [JobResponse]: the identifier and the record. *)
Record JobResponse := {
  response_job_id : string;
  response_job : Job
}.

Section Controller.
Context `{Backend}.

(** [upload_csv]: the upload is written to a temporary file at
    [tmp_path] (the name drawn by [NamedTemporaryFile]), loaded, and the
    file removed; the removal is skipped when the load raises. *)
Definition upload_csv (self : DataService) (files : gmap string string)
    (tmp_path : string) (file : UploadFile)
    : DataService * gmap string string * Response UploadResponse :=
  if negb (endswith (filename file) ".csv")
  then (self, files, HTTPException 400 "Only CSV files are allowed")
  else
    let files1 := <[tmp_path := content file]> files in
    match load_csv_async self files1 tmp_path with
    | Return (self', df) =>
        (self', delete tmp_path files1,
         OK {| message := "File uploaded successfully";
               uploaded_filename := filename file;
               rows := (pl.shape df).1;
               columns := (pl.shape df).2 |})
    | Raise e =>
        (self, files1, HTTPException 500 ("Upload failed: " ++ str e))
    end.

Definition get_schema (self : DataService) : Response Schema :=
  match get_schema self with
  | Return schema_data => OK schema_data
  | Raise (ValueError msg) => HTTPException 400 msg
  | Raise _ => HTTPException 500 "Failed to retrieve schema"
  end.

Definition query_by_sex (self : DataService) (sex : string) (limit : Z)
    : Response QueryResult :=
  let filters := [ {| column := "SEX (DISPLAY)"; value := sex |} ] in
  match query_data self filters limit with
  | Return result => OK {| result_data := result; result_count := length result |}
  | Raise (ValueError msg) => HTTPException 400 msg
  | Raise _ => HTTPException 500 "Query failed"
  end.

Definition query_by_year (self : DataService) (year : string) (limit : Z)
    : Response QueryResult :=
  let filters := [ {| column := "YEAR (DISPLAY)"; value := year |} ] in
  match query_data self filters limit with
  | Return result => OK {| result_data := result; result_count := length result |}
  | Raise (ValueError msg) => HTTPException 400 msg
  | Raise _ => HTTPException 500 "Query failed"
  end.

(** [create_summary_job]: any exception, also the one of
    [asyncio.create_task], becomes a 500; the record stored before it
    stays. *)
Definition create_summary_job (self : DataService) (job_id now : string)
    (loop_running : bool) : DataService * Response JobResponse :=
  let '(self', r) := create_summary_job self job_id now loop_running in
  (self',
   match r ≫= (λ job_id, job_data ← get_job_status self' job_id;
                         Return {| response_job_id := job_id; response_job := job_data |}) with
   | Return response => OK response
   | Raise _ => HTTPException 500 "Failed to create job"
   end).

Definition get_job_result (self : DataService) (job_id : string) : Response JobResponse :=
  match get_job_status self job_id with
  | Return job_data => OK {| response_job_id := job_id; response_job := job_data |}
  | Raise (ValueError msg) => HTTPException 404 msg
  | Raise _ => HTTPException 500 "Failed to retrieve job"
  end.

End Controller.
End health_controller.

Module health_router.

(** [Query(100, ge=1, le=1000)] on [limit]. *)
Definition limit_ok (limit : Z) : bool := (1 <=? limit)%Z && (limit <=? 1000)%Z.

Definition query_by_sex (self : DataService) (sex : string) (limit : Z)
    : Response health_controller.QueryResult :=
  if limit_ok limit then health_controller.query_by_sex self sex limit
  else RequestValidationError "limit".

Definition query_by_year (self : DataService) (year : string) (limit : Z)
    : Response health_controller.QueryResult :=
  if limit_ok limit then health_controller.query_by_year self year limit
  else RequestValidationError "limit".

End health_router.

(** ** A small backend to evaluate examples

    Integer and text inference, a reader of plain payloads only,
    [value_counts] in the order of last occurrence (one of the orders
    the library may produce), and a [describe] that reports the two
    counting rows only. *)

Definition digit (c : ascii) : option Z :=
  let n := nat_of_ascii c in
  if ((48 <=? n) && (n <=? 57))%nat then Some (Z.of_nat n - 48) else None.

Fixpoint parse_digits (acc : Z) (s : string) : option Z :=
  match s with
  | EmptyString => Some acc
  | String c s' => d ← digit c; parse_digits (10 * acc + d) s'
  end.

Definition parse_int (s : string) : option Z :=
  match s with
  | EmptyString => None
  | String c s' =>
      if Ascii.eqb c (ascii_of_nat 45)
      then match s' with
           | EmptyString => None
           | _ => Z.opp <$> parse_digits 0 s'
           end
      else parse_digits 0 s
  end.

Definition small_infer (h : string) (fs : list string) : pl.Series :=
  if forallb (λ f, String.eqb f EmptyString || bool_decide (is_Some (parse_int f))) fs
     && existsb (λ f, negb (String.eqb f EmptyString)) fs
  then pl.mkSeries h pl.Int64 ((λ f, pl.VInt <$> parse_int f) <$> fs)
  else pl.mkSeries h pl.Utf8
         ((λ f, if String.eqb f EmptyString then None else Some (pl.VStr f)) <$> fs).

Definition small_read_text (payload : string) : Exc pl.DataFrame :=
  if String.eqb payload EmptyString then Raise (NoDataError "empty CSV")
  else if plain payload
  then Return (frame_with small_infer (csv_header payload) (csv_records payload))
  else Raise (ComputeError "could not parse the payload").

Definition small_value_counts (s : pl.Series) : Exc pl.DataFrame :=
  Return (counts_frame s
            ((λ v, (v, occurrences v (pl.values s))) <$> remove_dups (pl.values s))).

Definition small_describe (df : pl.DataFrame) : Exc pl.DataFrame :=
  Return (pl.mkSeries "statistic" pl.Utf8 [Some (pl.VStr "count"); Some (pl.VStr "null_count")]
          :: ((λ s, pl.mkSeries (pl.name s) pl.Float64
                      [Some (pl.VFloat (pretty (length (pl.values s) - pl.null_count s)%nat ++ ".0"));
                       Some (pl.VFloat (pretty (pl.null_count s) ++ ".0"))]) <$> df)).

Lemma small_value_counts_table s f :
  small_value_counts s = Return f →
  ∃ t, f = counts_frame s t ∧ count_table (pl.values s) t.
Proof.
  intros [= <-]. eexists; split; [reflexivity|]. split.
  - rewrite <- list_fmap_compose.
    replace (fmap _ _) with (id <$> remove_dups (pl.values s)) by by apply list_fmap_ext.
    rewrite list_fmap_id. apply NoDup_remove_dups.
  - intros v n. rewrite list_elem_of_fmap. split.
    + intros (v' & Heq & Hin). injection Heq as -> ->.
      rewrite elem_of_remove_dups in Hin. by split.
    + intros [Hin ->]. exists v. split; [done|]. by rewrite elem_of_remove_dups.
Qed.

Lemma small_infer_name h fs : pl.name (small_infer h fs) = h.
Proof. unfold small_infer. by case_match. Qed.

Lemma small_infer_length h fs : length (pl.values (small_infer h fs)) = length fs.
Proof. unfold small_infer. case_match; simpl; by rewrite length_fmap. Qed.

Lemma forallb_Forall {A} (f : A → bool) (xs : list A) :
  forallb f xs = true ↔ Forall (λ x, f x = true) xs.
Proof.
  induction xs as [|x xs IH]; simpl.
  - split; [constructor|done].
  - by rewrite andb_true_iff, IH, Forall_cons.
Qed.

Lemma frame_with_columns infer hs rs :
  (∀ h fs, pl.name (infer h fs) = h) → pl.columns (frame_with infer hs rs) = hs.
Proof.
  intros Hname. unfold pl.columns, frame_with. rewrite fmap_imap.
  rewrite (imap_ext _ (const id)); [by rewrite imap_const, list_fmap_id|].
  intros i h _. simpl. apply Hname.
Qed.

Lemma frame_with_lengths infer hs rs :
  (∀ h fs, length (pl.values (infer h fs)) = length fs) →
  Forall (λ s, length (pl.values s) = length rs) (frame_with infer hs rs).
Proof.
  intros Hlen. apply Forall_forall. intros s (j & h & -> & _)%elem_of_lookup_imap.
  by rewrite Hlen, length_fmap.
Qed.

Lemma frame_with_wf infer hs rs :
  (∀ h fs, pl.name (infer h fs) = h) →
  (∀ h fs, length (pl.values (infer h fs)) = length fs) →
  NoDup hs → pl.wf (frame_with infer hs rs).
Proof.
  intros Hname Hlen Hnd. split.
  - by rewrite frame_with_columns.
  - pose proof (frame_with_lengths infer hs rs Hlen) as Hall.
    destruct (frame_with _ _ _) as [|s df] eqn:Hf; [constructor|].
    simpl. rewrite (Forall_inv Hall). exact Hall.
Qed.

Lemma plain_NoDup payload : plain payload = true → NoDup (csv_header payload).
Proof.
  unfold plain. rewrite !andb_true_iff.
  intros [[_ Hnd] _]. by apply bool_decide_eq_true_1 in Hnd.
Qed.

Lemma small_read_text_wf payload df : small_read_text payload = Return df → pl.wf df.
Proof.
  unfold small_read_text. destruct (String.eqb payload EmptyString); [done|].
  destruct (plain payload) eqn:Hplain; [|done].
  intros [= <-].
  apply frame_with_wf;
    [apply small_infer_name | apply small_infer_length | by apply plain_NoDup].
Qed.

Lemma small_read_text_plain payload df :
  plain payload = true → small_read_text payload = Return df →
  df = frame_with small_infer (csv_header payload) (csv_records payload).
Proof.
  unfold small_read_text. intros Hplain.
  destruct (String.eqb payload EmptyString); [done|]. rewrite Hplain. by intros [= <-].
Qed.

Lemma small_read_text_inferred payload :
  plain payload = true →
  (length (csv_records payload) ≤ INFER_SCHEMA_LENGTH)%nat →
  ∃ df, small_read_text payload = Return df.
Proof.
  unfold small_read_text. intros Hplain _.
  destruct (String.eqb_spec payload EmptyString) as [->|_]; [done|].
  rewrite Hplain. by eexists.
Qed.

Lemma small_read_text_empty : ∃ msg, small_read_text EmptyString = Raise (NoDataError msg).
Proof. by eexists. Qed.

Definition small_backend : Backend := {|
  infer_column := small_infer;
  infer_column_name := small_infer_name;
  infer_column_length := small_infer_length;
  read_text := small_read_text;
  read_text_wf := small_read_text_wf;
  read_text_empty := small_read_text_empty;
  read_text_plain := small_read_text_plain;
  read_text_inferred := small_read_text_inferred;
  describe := small_describe;
  value_counts := small_value_counts;
  value_counts_table := small_value_counts_table
|}.

(** The same backend, except that [value_counts] fails on a column
    named like the column of counts it would add. *)
Definition picky_value_counts (s : pl.Series) : Exc pl.DataFrame :=
  if String.eqb (pl.name s) "count"
  then Raise (ComputeError "duplicate column names")
  else small_value_counts s.

Lemma picky_value_counts_table s f :
  picky_value_counts s = Return f →
  ∃ t, f = counts_frame s t ∧ count_table (pl.values s) t.
Proof.
  unfold picky_value_counts. destruct (String.eqb _ _); [done|].
  apply small_value_counts_table.
Qed.

Definition picky_backend : Backend := {|
  infer_column := small_infer;
  infer_column_name := small_infer_name;
  infer_column_length := small_infer_length;
  read_text := small_read_text;
  read_text_wf := small_read_text_wf;
  read_text_empty := small_read_text_empty;
  read_text_plain := small_read_text_plain;
  read_text_inferred := small_read_text_inferred;
  describe := small_describe;
  value_counts := picky_value_counts;
  value_counts_table := picky_value_counts_table
|}.

(** ** Vocabulary of the statements *)

(** What the lines of a plain table satisfy. *)
Record plain_lines (ls : list string) : Prop := {
  lines_no_lf : Forall (λ l, has_char LF l = false) ls;
  lines_no_cr : Forall (λ l, has_char CR l = false) ls;
  lines_no_quote : Forall (λ l, has_char DQUOTE l = false) ls;
  lines_nonempty : Forall (λ l, nonempty l = true) ls
}.

(** [plain_table], unfolded. *)
Record table_ok (header : list string) (rows : list (list string)) : Prop := {
  header_nonempty : header ≠ [];
  header_bare : forallb bare header = true;
  header_named : forallb nonempty header = true;
  header_NoDup : NoDup header;
  rows_ok : Forall (λ r, r ≠ [] ∧ forallb bare r = true ∧ r ≠ [EmptyString]
                         ∧ (length r ≤ length header)%nat) rows
}.

(** A payload that ends with a line feed. *)
Definition with_newline (s : string) : string := s ++ String LF EmptyString.


(** The number of rows a mask keeps. *)
Definition count_true (mask : list (option bool)) : nat := length (pl.keep mask mask).

(** A row satisfies [pl.col(c).cast(pl.Utf8).str.contains(val)]: its
    cell under [c] is not null and its text contains [val]. *)
Definition row_matches (c val : string) (r : pl.Row) : bool :=
  match dict_get c r with
  | Some (Some v) => contains (pl.to_utf8 v) val
  | _ => false
  end.

(** A row passes a list of filters when it matches every filter whose
    column is among [cols]. *)
Definition passes (cols : list string) (filters : list Filter) (r : pl.Row) : Prop :=
  Forall (λ f, column f ∈ cols → row_matches (column f) (value f) r) filters.

Global Instance passes_dec cols filters r : Decision (passes cols filters r).
Proof. unfold passes. apply _. Defined.

Global Instance wf_dec df : Decision (pl.wf df).
Proof. unfold pl.wf. apply _. Defined.

(** One record of a value-count table. *)
Definition count_row (nm : string) (vn : pl.Cell * nat) : pl.Row :=
  [(nm, vn.1); ("count", Some (pl.VInt (Z.of_nat vn.2)))].

(** The listed values are the most frequent ones: a value of the column
    that is left out occurs no more often than any listed value. *)
Definition most_frequent (vs : list pl.Cell) (t : list (pl.Cell * nat)) : Prop :=
  ∀ v, v ∈ vs → (v, occurrences v vs) ∉ t →
  ∀ v' n', (v', n') ∈ t → (occurrences v vs ≤ n')%nat.

(** The entry [_get_distributions] stores for one column. *)
Definition entry_of `{Backend} (df : pl.DataFrame) (col : string) : Distribution :=
  match distribution_of df col with
  | Return d => d
  | Raise _ => DistributionError "Could not compute distribution"
  end.

(** The record the second stretch leaves. *)
Definition outcome_of `{Backend} (self : DataService) (now : string) (job : Job) : Job :=
  match summarize self with
  | Raise e => set_failed now e job
  | Return r => set_completed now r job
  end.

(** The two statuses a job ends in. *)
Definition terminal (s : JobStatus) : Prop := s = completed ∨ s = failed.

(** The edges of the lifecycle. *)
Inductive lifecycle : JobStatus → JobStatus → Prop :=
| lifecycle_start : lifecycle pending running
| lifecycle_finish_ok : lifecycle running completed
| lifecycle_finish_err : lifecycle running failed.

(** Which fields a record has set, by status. *)
Definition job_ok (job : Job) : Prop :=
  match status job with
  | pending | running =>
      completed_at job = None ∧ result job = None ∧ error job = None
  | completed =>
      is_Some (completed_at job) ∧ is_Some (result job) ∧ error job = None
  | failed =>
      is_Some (completed_at job) ∧ result job = None ∧ is_Some (error job)
  end.

(** The stage of a job's task against the status of its record; a job
    whose task could not be handed to the loop has none. *)
Definition stage_ok (stage : option Stage) (s : JobStatus) : Prop :=
  match stage with
  | None | Some Scheduled => s = pending
  | Some Asleep => s = running
  | Some Ended => terminal s
  end.

(** The invariant of the worlds: every record has the fields of its
    status and agrees with the stage of its task, and only registered
    jobs have a task. *)
Definition inv (w : World) : Prop :=
  (∀ id job, jobs (service w) !! id = Some job →
     job_ok job ∧ stage_ok (tasks w !! id) (status job))
  ∧ (∀ id, jobs (service w) !! id = None → tasks w !! id = None).

(** The job whose coroutine an event runs. *)
Definition task_of (ev : Event) : option string :=
  match ev with
  | Begin job_id _ | Wake job_id _ => Some job_id
  | Loaded _ | Create _ _ _ => None
  end.

(** The missing-value entry of a column over a frame of [n] rows. *)
Definition missing_entry (n : nat) (s : pl.Series) : string * MissingValues :=
  (pl.name s,
   {| null_count := Z.of_nat (pl.null_count s);
      null_percentage :=
        PrimFloat.mul
          (PrimFloat.div (to_float (Z.of_nat (pl.null_count s))) (to_float (Z.of_nat n)))
          (to_float 100) |}).

(** The numeric columns of a frame, in schema order. *)
Definition numeric_columns (df : pl.DataFrame) : pl.DataFrame :=
  filter (λ s, is_numeric (pl.dtype s)) (df : list pl.Series).

(** What a query endpoint on the column [c] answers on a held frame:
    a body whose count is the number of its records, at most the limit;
    its records are rows of the frame, in order; when the frame has the
    column they all match, and when it has not they are simply the first
    rows of the frame. *)
Definition answers_query_on (c val : string) (limit : Z) (df : pl.DataFrame)
    (response : Response health_controller.QueryResult) : Prop :=
  ∃ body,
    response = OK body
    ∧ health_controller.result_count body = length (health_controller.result_data body)
    ∧ (Z.of_nat (health_controller.result_count body) ≤ limit)%Z
    ∧ health_controller.result_data body `sublist_of` pl.to_dicts df
    ∧ (c ∈ pl.columns df →
         Forall (λ r, row_matches c val r) (health_controller.result_data body))
    ∧ (c ∉ pl.columns df →
         health_controller.result_data body = take (Z.to_nat limit) (pl.to_dicts df)).

(** ** Data for the examples *)

(** The frame of the test fixture, with one year left empty. *)
Definition sample_frame : pl.DataFrame :=
  [ pl.mkSeries "SEX (DISPLAY)" pl.Utf8
      [Some (pl.VStr "Male"); Some (pl.VStr "Female"); Some (pl.VStr "Both sexes")];
    pl.mkSeries "YEAR (DISPLAY)" pl.Int64
      [Some (pl.VInt 2000); Some (pl.VInt 2001); None];
    pl.mkSeries "Numeric" pl.Int64
      [Some (pl.VInt 10); Some (pl.VInt 20); Some (pl.VInt 30)] ].

Definition sample_service : DataService := {| data := Some sample_frame; jobs := ∅ |}.

(** The payload of the upload scenario. *)
Definition scenario_csv : string :=
  "col1,col2,col3" ++ String LF "1,2,3" ++ String LF "4,5,6".

(** The same table with every line ended by a carriage return and a
    line feed. *)
Definition scenario_crlf : string :=
  "col1,col2,col3" ++ String CR (String LF "1,2,3")
  ++ String CR (String LF "4,5,6") ++ String CR (String LF EmptyString).

(** A payload with the header of the test fixture and one empty field. *)
Definition fixture_csv : string :=
  "SEX (DISPLAY),YEAR (DISPLAY),Numeric" ++ String LF "Male,2000,10"
  ++ String LF "Female,2001,20" ++ String LF "Both sexes,,30".

(** Eleven distinct codes, the last of them occurring twice. *)
Definition skewed_column : pl.Series :=
  pl.mkSeries "code" pl.Int64
    ((λ z, Some (pl.VInt z)) <$> [10; 0; 1; 2; 3; 4; 5; 6; 7; 8; 9; 10]%Z).

Definition skewed_service : DataService := {| data := Some [skewed_column]; jobs := ∅ |}.

(** Six columns of twelve rows: the codes, a column named [count], and
    four columns that hold one value. *)
Definition constant_column (name : string) (z : Z) : pl.Series :=
  pl.mkSeries name pl.Int64 (replicate 12 (Some (pl.VInt z))).

Definition wide_frame : pl.DataFrame :=
  [ skewed_column; constant_column "count" 1; constant_column "third" 3;
    constant_column "fourth" 4; constant_column "fifth" 5; constant_column "sixth" 6 ].

Definition wide_service : DataService := {| data := Some wide_frame; jobs := ∅ |}.

(** A registry with one pending job. *)
Definition pending_job : Job :=
  {| status := pending; created_at := "2024-01-01T00:00:00";
     completed_at := None; result := None; error := None |}.

(** A service with no frame and one registered job. *)
Definition idle_service : DataService :=
  {| data := None; jobs := {[ "j1" := pending_job ]} |}.

(** A frame with a header and no record. *)
Definition empty_frame : pl.DataFrame :=
  [ pl.mkSeries "SEX (DISPLAY)" pl.Utf8 []; pl.mkSeries "Numeric" pl.Utf8 [] ].

(** A service holding the empty frame, with one registered job. *)
Definition empty_service : DataService :=
  {| data := Some empty_frame; jobs := {[ "j1" := pending_job ]} |}.

(** A run of the small backend: a frame is loaded, a job is created
    and started. *)
Definition demo_events : list Event :=
  [ Loaded sample_frame;
    Create "j1" "2024-01-01T00:00:00" true;
    Begin "j1" "2024-01-01T00:00:01" ].

Definition demo_world : World :=
  default world0 (@run small_backend world0 demo_events).

Definition demo_job : Job :=
  default pending_job (jobs (service demo_world) !! "j1").

(** A frame with rows and no numeric column. *)
Definition text_frame : pl.DataFrame :=
  [ pl.mkSeries "SEX (DISPLAY)" pl.Utf8 [Some (pl.VStr "Male"); None];
    pl.mkSeries "REGION" pl.Utf8 [Some (pl.VStr "Africa"); Some (pl.VStr "Africa")] ].

Definition text_service : DataService :=
  {| data := Some text_frame; jobs := {[ "j1" := pending_job ]} |}.

(** A world with a frame held and one job waiting to start. *)
Definition scheduled_world : World :=
  default world0 (@run small_backend world0 (take 2 demo_events)).

(** A world with one job created while no loop was running, and the
    world a later run leads to. *)
Definition orphan_world : World :=
  default world0 (@exec small_backend world0 (Create "j9" "2024-01-01T00:00:00" false)).

Definition orphan_world_later : World :=
  default world0 (@run small_backend orphan_world demo_events).

(** An upload of the fixture payload, and one of a ragged payload. *)
Definition fixture_upload : health_controller.UploadFile :=
  {| health_controller.filename := "test.csv";
     health_controller.content := fixture_csv |}.

(** An upload without content. *)
Definition empty_upload : health_controller.UploadFile :=
  {| health_controller.filename := "empty.csv";
     health_controller.content := EmptyString |}.

(** * Properties *)

(** ** Frames, rows and masks *)

Module pl_facts.
Import pl.

Lemma columns_filter mask df : columns (filter mask df) = columns df.
Proof. unfold columns, filter. rewrite <- list_fmap_compose. by apply list_fmap_ext. Qed.

Lemma columns_head n df : columns (head_frame n df) = columns df.
Proof. unfold columns, head_frame. rewrite <- list_fmap_compose. by apply list_fmap_ext. Qed.

Lemma columns_tails df : columns (tails df) = columns df.
Proof. unfold columns, tails. rewrite <- list_fmap_compose. by apply list_fmap_ext. Qed.

Lemma length_keep {A} mask (xs : list A) :
  length xs = length mask → length (keep mask xs) = count_true mask.
Proof.
  unfold count_true. revert xs. induction mask as [|[[]|] mask IH]; intros [|x xs] Hlen;
    simplify_eq/=; auto.
Qed.

(** Reasoning column by column, under a hypothesis on every column. *)
Ltac columnwise Hall :=
  eapply Forall_impl; [exact Hall|];
  let s := fresh "s" in let Hs := fresh "Hs" in
  intros s Hs; unfold with_values; simpl in *;
  destruct (values s); simplify_eq/=.

Lemma Forall_tails n df :
  Forall (λ s, length (values s) = S n) df → Forall (λ s, length (values s) = n) (tails df).
Proof. intros Hall. apply Forall_fmap. by columnwise Hall. Qed.

Lemma heads_filter_true mask df :
  Forall (λ s, length (values s) = S (length mask)) df →
  heads (filter (Some true :: mask) df) = heads df.
Proof.
  intros Hall. unfold heads, filter. rewrite <- list_fmap_compose.
  apply Forall_fmap_ext. by columnwise Hall.
Qed.

Lemma tails_filter_true mask df :
  Forall (λ s, length (values s) = S (length mask)) df →
  tails (filter (Some true :: mask) df) = filter mask (tails df).
Proof.
  intros Hall. unfold tails, filter. rewrite <- !list_fmap_compose.
  apply Forall_fmap_ext. by columnwise Hall.
Qed.

Lemma filter_drop m mask df :
  m ≠ Some true →
  Forall (λ s, length (values s) = S (length mask)) df →
  filter (m :: mask) df = filter mask (tails df).
Proof.
  intros Hm Hall. unfold tails, filter. rewrite <- !list_fmap_compose.
  apply Forall_fmap_ext. columnwise Hall. by destruct m as [[]|].
Qed.

(** Filtering the columns by a mask filters the rows by it. *)
Lemma rows_of_filter mask df :
  Forall (λ s, length (values s) = length mask) df →
  rows_of (count_true mask) (filter mask df) = keep mask (rows_of (length mask) df).
Proof.
  revert df. induction mask as [|m mask IH]; intros df Hall; [done|].
  destruct (decide (m = Some true)) as [->|Hm].
  - change (count_true (Some true :: mask)) with (S (count_true mask)). simpl.
    rewrite heads_filter_true, tails_filter_true by done.
    f_equal. apply IH. by apply Forall_tails.
  - rewrite filter_drop by done.
    replace (count_true (m :: mask)) with (count_true mask) by by destruct m as [[]|].
    rewrite IH by by apply Forall_tails.
    simpl. by destruct m as [[]|].
Qed.

Lemma rows_of_take k n df :
  Forall (λ s, length (values s) = n) df →
  rows_of (k `min` n) ((λ s, with_values (take k (values s)) s) <$> df)
  = take k (rows_of n df).
Proof.
  revert n df. induction k as [|k IH]; intros [|n] df Hall; try done.
  simpl. f_equal.
  - unfold heads. rewrite <- list_fmap_compose. apply Forall_fmap_ext.
    by columnwise Hall.
  - rewrite <- (IH n (tails df)) by by apply Forall_tails.
    f_equal. unfold tails. rewrite <- !list_fmap_compose. apply Forall_fmap_ext.
    by columnwise Hall.
Qed.

Lemma length_rows_of n df : length (rows_of n df) = n.
Proof. revert df. induction n; intros; simpl; auto. Qed.

Lemma length_to_dicts df : length (to_dicts df) = height df.
Proof. apply length_rows_of. Qed.

Lemma col_Return c df s : col c df = Return s → s ∈ df ∧ name s = c.
Proof.
  induction df as [|s' df IH]; [done|]. simpl.
  destruct (String.eqb_spec (name s') c) as [Heq|Hne].
  - intros [= ->]. split; [left|done].
  - intros Hc. destruct (IH Hc). split; [by right|done].
Qed.

Lemma col_present c df : c ∈ columns df → ∃ s, col c df = Return s.
Proof.
  induction df as [|s' df IH]; [by intros ?%elem_of_nil|]. simpl.
  destruct (String.eqb_spec (name s') c) as [Heq|Hne]; [by eauto|].
  intros [?|?]%elem_of_cons; [congruence|by apply IH].
Qed.

Lemma col_tails c df s : col c df = Return s → col c (tails df) = Return (with_values (tail (values s)) s).
Proof.
  induction df as [|s' df IH]; [done|]. simpl.
  destruct (String.eqb (name s') c); [by intros [= ->]|done].
Qed.

Lemma dict_get_heads c df s : col c df = Return s → dict_get c (heads df) = Some (hd None (values s)).
Proof.
  induction df as [|s' df IH]; [done|]. simpl.
  destruct (String.eqb (name s') c); [by intros [= ->]|done].
Qed.

(** The mask computed from a column selects the rows that match. *)
Lemma keep_mask_rows c val n : ∀ df s,
  col c df = Return s → length (values s) = n →
  keep (str_contains val (cast_utf8 s)) (rows_of n df)
  = base.filter (λ r, row_matches c val r) (rows_of n df).
Proof.
  induction n as [|n IH]; intros df s Hcol Hlen;
    [unfold str_contains, cast_utf8; by destruct (values s)|].
  simpl.
  pose proof (dict_get_heads _ _ _ Hcol) as Hget.
  pose proof (IH _ _ (col_tails _ _ _ Hcol)) as IH'.
  unfold str_contains, cast_utf8 in *. simpl in IH'.
  destruct (values s) as [|v vs]; simplify_eq/=.
  specialize (IH' eq_refl).
  assert (row_matches c val (heads df)
          = match v with Some v => contains (to_utf8 v) val | None => false end) as Hm.
  { unfold row_matches. rewrite Hget. by destruct v. }
  rewrite IH', filter_cons.
  destruct (decide (row_matches c val (heads df))) as [Hd|Hd]; rewrite Hm in Hd;
    destruct v as [v|]; simpl in *; try destruct (contains (to_utf8 v) val);
    simpl in *; done || (exfalso; by apply Hd).
Qed.

End pl_facts.

Import pl_facts.

Lemma wf_lengths df s : pl.wf df → s ∈ df → length (pl.values s) = pl.height df.
Proof. intros [_ Hall] Hin. by eapply (proj1 (Forall_forall _ _)) in Hall. Qed.

Lemma height_fmap_values (g : pl.Series → list pl.Cell) n df :
  df ≠ [] → Forall (λ s, length (g s) = n) df →
  pl.height ((λ s, pl.with_values (g s) s) <$> df) = n.
Proof. destruct df as [|s df]; [done|]. intros _ Hall. by inversion Hall. Qed.

Lemma wf_fmap_values (g : pl.Series → list pl.Cell) n df :
  NoDup (pl.columns df) → Forall (λ s, length (g s) = n) df →
  pl.wf ((λ s, pl.with_values (g s) s) <$> df).
Proof.
  intros Hnd Hall. split.
  - unfold pl.columns. rewrite <- list_fmap_compose.
    by rewrite (list_fmap_ext _ pl.name df) by done.
  - apply Forall_fmap. destruct df as [|s0 df]; [constructor|].
    erewrite height_fmap_values by done.
    eapply Forall_impl; [exact Hall|]. done.
Qed.

(** A frame filtered by the mask of one of its columns: the rows that
    match are kept, in order, and the frame stays well formed. *)
Lemma to_dicts_filter c val df s :
  pl.wf df → pl.col c df = Return s →
  let mask := pl.str_contains val (pl.cast_utf8 s) in
  pl.to_dicts (pl.filter mask df) = filter (λ r, row_matches c val r) (pl.to_dicts df)
  ∧ pl.wf (pl.filter mask df).
Proof.
  intros Hwf Hcol mask.
  destruct (col_Return _ _ _ Hcol) as [Hin _].
  assert (df ≠ []) as Hne by (intros ->; by apply elem_of_nil in Hin).
  pose proof (wf_lengths _ _ Hwf Hin) as Hlen.
  assert (length mask = pl.height df) as Hmask.
  { unfold mask, pl.str_contains, pl.cast_utf8. by rewrite !length_fmap. }
  assert (Forall (λ s, length (pl.values s) = length mask) df) as Hall.
  { rewrite Hmask. apply Hwf. }
  assert (Forall (λ s, length (pl.keep mask (pl.values s)) = count_true mask) df) as Hkept.
  { eapply Forall_impl; [exact Hall|]. intros s' Hs'. by apply length_keep. }
  split; [|apply (wf_fmap_values _ (count_true mask)); [apply Hwf|done]].
  unfold pl.to_dicts. unfold pl.filter at 1.
  rewrite (height_fmap_values _ (count_true mask)) by done.
  rewrite rows_of_filter by done. rewrite Hmask.
  apply keep_mask_rows with (s := s); done.
Qed.

Lemma to_dicts_head n df :
  Forall (λ s, length (pl.values s) = pl.height df) df →
  pl.to_dicts (pl.head_frame n df) = take (pl.head_len n (pl.height df)) (pl.to_dicts df).
Proof.
  intros Hwf. destruct (decide (df = [])) as [->|Hne]; [by destruct (pl.head_len n _)|].
  set (k := pl.head_len n (pl.height df)).
  assert (pl.head_frame n df = (λ s, pl.with_values (take k (pl.values s)) s) <$> df) as ->.
  { apply Forall_fmap_ext. eapply Forall_impl; [apply Hwf|].
    intros s Hs. simpl in *. by rewrite Hs. }
  unfold pl.to_dicts.
  rewrite (height_fmap_values _ (k `min` pl.height df)); [|done|].
  - apply rows_of_take, Hwf.
  - eapply Forall_impl; [apply Hwf|]. intros s Hs. simpl in *. by rewrite length_take, Hs.
Qed.

(** ** Query *)

Lemma apply_filter_absent df f :
  column f ∉ pl.columns df → apply_filter df f = Return df.
Proof. intros Habs. unfold apply_filter. by rewrite bool_decide_eq_false_2. Qed.

Lemma apply_filter_present df f :
  pl.wf df → column f ∈ pl.columns df →
  ∃ df', apply_filter df f = Return df' ∧ pl.wf df' ∧ pl.columns df' = pl.columns df
    ∧ pl.to_dicts df' = filter (λ r, row_matches (column f) (value f) r) (pl.to_dicts df).
Proof.
  intros Hwf Hin. unfold apply_filter. rewrite bool_decide_eq_true_2 by done.
  destruct (col_present _ _ Hin) as [s Hs]. rewrite Hs. simpl.
  destruct (to_dicts_filter _ (value f) _ _ Hwf Hs) as [Hrows Hwf'].
  eexists; split; [reflexivity|]. by rewrite columns_filter.
Qed.

Lemma apply_filter_total df f : ∃ df', apply_filter df f = Return df'.
Proof.
  unfold apply_filter. case_bool_decide as Hin; [|by eauto].
  destruct (col_present _ _ Hin) as [s ->]. by eauto.
Qed.

Lemma filters_loop_total filters : ∀ df, ∃ df', for_each apply_filter df filters = Return df'.
Proof.
  induction filters as [|f filters IH]; intros df; [by eauto|]. simpl.
  destruct (apply_filter_total df f) as [df1 ->]. apply IH.
Qed.

Lemma filter_all {A} (P : A → Prop) `{∀ x, Decision (P x)} (l : list A) :
  (∀ x, P x) → filter P l = l.
Proof. intros HP. induction l as [|x l IH]; [done|]. by rewrite filter_cons_True, IH. Qed.

Lemma filters_loop filters : ∀ df,
  pl.wf df →
  ∃ df', for_each apply_filter df filters = Return df' ∧ pl.wf df'
    ∧ pl.columns df' = pl.columns df
    ∧ pl.to_dicts df' = filter (passes (pl.columns df) filters) (pl.to_dicts df).
Proof.
  induction filters as [|f filters IH]; intros df Hwf.
  - exists df. repeat split; try done; try apply Hwf.
    symmetry. apply filter_all. intros; constructor.
  - simpl. destruct (decide (column f ∈ pl.columns df)) as [Hin|Hout].
    + destruct (apply_filter_present _ _ Hwf Hin) as (df1 & -> & Hwf1 & Hcols1 & Hrows1).
      destruct (IH df1 Hwf1) as (df' & Hloop & Hwf' & Hcols' & Hrows').
      exists df'. simpl. repeat split; try done; try apply Hwf'; [congruence|].
      rewrite Hrows', Hrows1, Hcols1, list_filter_filter.
      apply list_filter_iff. intros r. unfold passes. rewrite Forall_cons. tauto.
    + rewrite (apply_filter_absent _ _ Hout).
      destruct (IH df Hwf) as (df' & Hloop & Hwf' & Hcols' & Hrows').
      exists df'. simpl. repeat split; try done; try apply Hwf'.
      rewrite Hrows'. apply list_filter_iff. intros r. unfold passes.
      rewrite Forall_cons. tauto.
Qed.

Lemma head_Return n df :
  (n < pl.USIZE_LIMIT)%Z → pl.head n df = Return (pl.head_frame n df).
Proof. intros Hn. unfold pl.head. by destruct (Z.leb_spec pl.USIZE_LIMIT n); [lia|]. Qed.

Lemma head_Raise n df :
  (pl.USIZE_LIMIT ≤ n)%Z → pl.head n df = Raise (OverflowError "int too big to convert").
Proof. intros Hn. unfold pl.head. by destruct (Z.leb_spec pl.USIZE_LIMIT n); [|lia]. Qed.

Lemma head_small n df :
  (n <? pl.USIZE_LIMIT)%Z = true → pl.head n df = Return (pl.head_frame n df).
Proof. intros Hn%Z.ltb_lt. by apply head_Return. Qed.

Lemma get_schema_eq self df :
  data self = Some df →
  get_schema self
  = Return {| schema_columns := pl.columns df;
              schema_dtypes :=
                foldl (λ d '(c, t), dict_set c (pl.dtype_str t) d) []
                      (zip (pl.columns df) (pl.dtypes df));
              schema_shape := pl.shape df;
              sample_data := pl.to_dicts (pl.head_frame 5 df) |}.
Proof. intros Hdata. unfold get_schema. by rewrite Hdata, head_small. Qed.

(** What [query_data] does on a held frame, for any limit. *)
Lemma query_data_eq self df filters limit :
  data self = Some df → pl.wf df →
  let kept := filter (passes (pl.columns df) filters) (pl.to_dicts df) in
  query_data self filters limit
  = if (pl.USIZE_LIMIT <=? limit)%Z
    then Raise (OverflowError "int too big to convert")
    else Return (take (pl.head_len limit (length kept)) kept).
Proof.
  intros Hdata Hwf kept. unfold query_data. rewrite Hdata.
  destruct (filters_loop filters df Hwf) as (df' & Hloop & Hwf' & _ & Hrows).
  rewrite Hloop. cbn [mbind Exc_bind]. unfold pl.head.
  destruct (pl.USIZE_LIMIT <=? limit)%Z; [done|]. cbn [mbind Exc_bind].
  rewrite to_dicts_head by apply Hwf'. rewrite <- length_to_dicts, Hrows. done.
Qed.

(** Below the bound of the native row count it returns. *)
Lemma query_data_small self df filters limit :
  data self = Some df → pl.wf df → (limit < pl.USIZE_LIMIT)%Z →
  let kept := filter (passes (pl.columns df) filters) (pl.to_dicts df) in
  query_data self filters limit = Return (take (pl.head_len limit (length kept)) kept).
Proof.
  intros Hdata Hwf Hlimit kept. rewrite (query_data_eq _ _ _ _ Hdata Hwf).
  by destruct (Z.leb_spec pl.USIZE_LIMIT limit); [lia|].
Qed.

(** When it returns, the limit was below the bound. *)
Lemma query_data_Return self df filters limit rows :
  data self = Some df → pl.wf df →
  query_data self filters limit = Return rows →
  (limit < pl.USIZE_LIMIT)%Z
  ∧ rows = take (pl.head_len limit
                   (length (filter (passes (pl.columns df) filters) (pl.to_dicts df))))
                (filter (passes (pl.columns df) filters) (pl.to_dicts df)).
Proof.
  intros Hdata Hwf Hq. rewrite (query_data_eq _ _ _ _ Hdata Hwf) in Hq.
  destruct (Z.leb_spec pl.USIZE_LIMIT limit); [done|]. by simplify_eq/=.
Qed.

(** At or above the bound it raises, on any held frame. *)
Lemma query_data_big self df filters limit :
  data self = Some df → (pl.USIZE_LIMIT ≤ limit)%Z →
  query_data self filters limit = Raise (OverflowError "int too big to convert").
Proof.
  intros Hdata Hlimit. unfold query_data. rewrite Hdata.
  destruct (filters_loop_total filters df) as [df' ->]. cbn [mbind Exc_bind].
  by rewrite head_Raise.
Qed.

Lemma row_matches_Some c val r :
  row_matches c val r →
  ∃ v, dict_get c r = Some (Some v) ∧ contains (pl.to_utf8 v) val = true.
Proof.
  unfold row_matches. destruct (dict_get c r) as [[v|]|]; try done.
  intros Hc. exists v. split; [done|]. by apply Is_true_eq_true.
Qed.

Lemma contains_empty s : contains s EmptyString = true.
Proof. by destruct s. Qed.

Lemma sample_frame_wf : pl.wf sample_frame.
Proof. apply (bool_decide_unpack _). vm_compute. reflexivity. Defined.




(** The limit has to be positive: on a negative [n], [head(n)] keeps all
    rows but the last [|n|]. *)
Example query_data_negative_limit :
  length <$> query_data sample_service [] (-1) = Return 2%nat.
Proof. reflexivity. Qed.




(** ** Load and schema *)

Lemma split_on_nonempty sep s : split_on sep s ≠ [].
Proof.
  destruct s as [|c s]; [done|]. simpl.
  destruct (Ascii.eqb c sep); [done|]. by destruct (split_on sep s).
Qed.

Lemma has_char_app c s1 s2 : has_char c (s1 ++ s2) = has_char c s1 || has_char c s2.
Proof. induction s1 as [|c' s1 IH]; simpl; [done|]. by rewrite IH, orb_assoc. Qed.

Lemma split_on_no_sep sep s : has_char sep s = false → split_on sep s = [s].
Proof.
  induction s as [|c s IH]; simpl; [done|].
  intros [Hc Hs]%orb_false_elim. rewrite Hc, (IH Hs). done.
Qed.

Lemma split_on_app sep s t :
  has_char sep s = false → split_on sep (s ++ String sep t) = s :: split_on sep t.
Proof.
  induction s as [|c s IH]; simpl.
  - intros _. by rewrite Ascii.eqb_refl.
  - intros [Hc Hs]%orb_false_elim. by rewrite Hc, (IH Hs).
Qed.

Lemma split_on_join sep parts :
  parts ≠ [] → Forall (λ p, has_char sep p = false) parts →
  split_on sep (join sep parts) = parts.
Proof.
  intros Hne Hall. induction Hall as [|p parts Hp Hall IH]; [done|].
  destruct parts as [|q parts]; simpl.
  - by apply split_on_no_sep.
  - rewrite (split_on_app _ _ _ Hp). f_equal. by apply IH.
Qed.

Lemma split_on_snoc sep s :
  split_on sep (s ++ String sep EmptyString) = split_on sep s ++ [EmptyString].
Proof.
  induction s as [|c s IH]; simpl.
  - by rewrite Ascii.eqb_refl.
  - destruct (Ascii.eqb c sep); [by rewrite IH|].
    rewrite IH. pose proof (split_on_nonempty sep s).
    by destruct (split_on sep s).
Qed.

Lemma has_char_join c sep parts :
  Ascii.eqb sep c = false → Forall (λ p, has_char c p = false) parts →
  has_char c (join sep parts) = false.
Proof.
  intros Hsep Hall. induction Hall as [|p parts Hp Hall IH]; [done|].
  destruct parts as [|q parts]; [done|].
  change (join sep (p :: q :: parts)) with (p ++ String sep (join sep (q :: parts)))%string.
  rewrite has_char_app, Hp. cbn [has_char orb]. by rewrite Hsep, IH.
Qed.

Lemma strip_cr_id l : has_char CR l = false → strip_cr l = l.
Proof.
  induction l as [|c l IH]; [done|].
  intros [Hc Hl]%orb_false_elim. simpl. destruct l as [|c' l]; [by rewrite Hc|].
  by rewrite (IH Hl).
Qed.

Lemma strip_crs_id ls : Forall (λ l, has_char CR l = false) ls → strip_crs ls = ls.
Proof.
  induction 1 as [|l ls Hl Hall IH]; [done|].
  simpl. destruct ls as [|l' ls]; [done|]. by rewrite (strip_cr_id _ Hl), IH.
Qed.

Lemma drop_trailing_blank_id ls :
  Forall (λ l, nonempty l = true) ls → drop_trailing_blank ls = ls.
Proof.
  intros Hall. unfold drop_trailing_blank.
  destruct (reverse ls) as [|l rest] eqn:Hrev; [done|].
  assert (l ∈ ls) as Hin by (apply elem_of_reverse; rewrite Hrev; left).
  rewrite Forall_forall in Hall. specialize (Hall _ Hin). by destruct l.
Qed.

Lemma drop_trailing_blank_snoc ls : drop_trailing_blank (ls ++ [EmptyString]) = ls.
Proof. unfold drop_trailing_blank. by rewrite reverse_snoc, reverse_involutive. Qed.

Lemma nonempty_join sep r :
  r ≠ [] → r ≠ [EmptyString] → nonempty (join sep r) = true.
Proof.
  destruct r as [|x [|y r]]; [done| |]; intros _ Hr.
  - simpl. destruct x; [done|done].
  - simpl. by destruct x.
Qed.

Lemma bare_elim f :
  bare f = true →
  has_char COMMA f = false ∧ has_char LF f = false
  ∧ has_char CR f = false ∧ has_char DQUOTE f = false.
Proof.
  unfold bare. rewrite !andb_true_iff, !negb_true_iff. tauto.
Qed.

Lemma bare_line r :
  forallb bare r = true →
  Forall (λ f, has_char COMMA f = false) r
  ∧ has_char LF (join COMMA r) = false
  ∧ has_char CR (join COMMA r) = false
  ∧ has_char DQUOTE (join COMMA r) = false.
Proof.
  intros Hr%forallb_Forall.
  assert (∀ c, (∀ f, bare f = true → has_char c f = false) →
               Forall (λ f, has_char c f = false) r) as Hall.
  { intros c Hc. eapply Forall_impl; [exact Hr|]. intros f Hf. by apply Hc. }
  split; [apply Hall; intros f Hf; by apply bare_elim in Hf as (? & ? & ? & ?)|].
  split; [|split]; (apply has_char_join; [done|]); apply Hall; intros f Hf;
    by apply bare_elim in Hf as (? & ? & ? & ?).
Qed.

Lemma plain_table_ok header rows : plain_table header rows = true → table_ok header rows.
Proof.
  unfold plain_table. rewrite !andb_true_iff, negb_true_iff.
  intros [[[[Hne Hb] Hn] Hnd] Hrows]. split.
  - by apply bool_decide_eq_false_1 in Hne.
  - done.
  - done.
  - by apply bool_decide_eq_true_1 in Hnd.
  - apply forallb_Forall in Hrows. eapply Forall_impl; [exact Hrows|].
    intros r Hr. simpl in Hr.
    rewrite !andb_true_iff, !negb_true_iff in Hr.
    destruct Hr as [[[Hr1 Hr2] Hr3] Hr4].
    apply bool_decide_eq_false_1 in Hr1, Hr3. apply Nat.leb_le in Hr4. done.
Qed.

Lemma table_lines header rows :
  table_ok header rows → plain_lines (join COMMA <$> header :: rows).
Proof.
  intros [Hne Hb Hn Hnd Hrows].
  assert (Forall (λ r, r ≠ [] ∧ forallb bare r = true ∧ r ≠ [EmptyString]) (header :: rows))
    as Hall.
  { constructor.
    - split; [done|]. split; [done|]. intros ->. done.
    - eapply Forall_impl; [exact Hrows|]. by intros r (? & ? & ? & _). }
  split; apply Forall_fmap; (eapply Forall_impl; [exact Hall|]);
    intros r (Hr1 & Hr2 & Hr3); simpl;
    try (by apply bare_line in Hr2 as (? & ? & ? & ?)).
  by apply nonempty_join.
Qed.

Lemma csv_lines_join ls :
  ls ≠ [] → plain_lines ls → csv_lines (join LF ls) = ls.
Proof.
  intros Hne [Hlf Hcr _ Hn]. unfold csv_lines.
  rewrite split_on_join by done. rewrite strip_crs_id by done.
  by apply drop_trailing_blank_id.
Qed.

Lemma csv_lines_join_lf ls :
  ls ≠ [] → plain_lines ls → csv_lines (join LF ls ++ String LF EmptyString)%string = ls.
Proof.
  intros Hne [Hlf Hcr _ Hn]. unfold csv_lines.
  rewrite split_on_snoc, split_on_join by done.
  rewrite strip_crs_id by (apply Forall_app; split; [done|by constructor]).
  apply drop_trailing_blank_snoc.
Qed.

(** The text of a plain table, with or without a final line feed, is
    a plain payload and reads back as the table. *)
Lemma render_plain header rows payload :
  plain_table header rows = true →
  payload = render header rows ∨ payload = with_newline (render header rows) →
  plain payload = true ∧ csv_header payload = header ∧ csv_records payload = rows.
Proof.
  intros Hok%plain_table_ok Hpayload.
  pose proof (table_lines _ _ Hok) as Hlines.
  destruct Hok as [Hne Hb Hn Hnd Hrows].
  assert (csv_lines payload = join COMMA <$> header :: rows) as Hcsv.
  { destruct Hpayload as [-> | ->]; [by apply csv_lines_join|by apply csv_lines_join_lf]. }
  assert (has_char DQUOTE payload = false) as Hq.
  { assert (has_char DQUOTE (render header rows) = false) as Hr
      by (apply has_char_join; [done|apply Hlines]).
    destruct Hpayload as [-> | ->]; [done|].
    unfold with_newline. by rewrite has_char_app, Hr. }
  assert (csv_header payload = header) as Hh.
  { unfold csv_header. rewrite Hcsv. simpl. apply split_on_join; [done|].
    by apply bare_line in Hb as [? _]. }
  assert (csv_records payload = rows) as Hr.
  { unfold csv_records. rewrite Hcsv. simpl. rewrite <- list_fmap_compose.
    rewrite <- (list_fmap_id rows) at 2. apply Forall_fmap_ext.
    eapply Forall_impl; [exact Hrows|]. intros r (Hr1 & Hr2 & _). simpl.
    apply split_on_join; [done|]. by apply bare_line in Hr2 as [? _]. }
  split; [|done]. unfold plain. rewrite Hq, Hh, Hr, Hcsv.
  destruct Hlines as [_ Hcr _ Hnl].
  rewrite !andb_true_iff. split; [split; [split; [split; [split; [split|]|]|]|]|].
  - done.
  - apply forallb_Forall. eapply Forall_impl; [exact Hcr|]. by intros l ->.
  - done.
  - by apply forallb_Forall.
  - done.
  - by apply bool_decide_eq_true_2.
  - apply forallb_Forall. eapply Forall_impl; [exact Hrows|].
    intros r (_ & _ & _ & Hlen). by apply Nat.leb_le.
Qed.

Section Load.
Context `{Backend}.

Lemma frame_of_columns hs rs : pl.columns (frame_of hs rs) = hs.
Proof. apply frame_with_columns, infer_column_name. Qed.

Lemma frame_of_lengths hs rs :
  Forall (λ s, length (pl.values s) = length rs) (frame_of hs rs).
Proof. apply frame_with_lengths, infer_column_length. Qed.

Lemma frame_of_shape hs rs :
  hs ≠ [] → pl.shape (frame_of hs rs) = (length rs, length hs).
Proof.
  intros Hne. unfold pl.shape, pl.width. f_equal; [|apply length_imap].
  pose proof (frame_of_lengths hs rs) as Hall.
  destruct (frame_of hs rs) as [|s df] eqn:Hf.
  - apply (f_equal length) in Hf. unfold frame_of, frame_with in Hf.
    rewrite length_imap in Hf. by destruct hs.
  - by inversion Hall.
Qed.

Lemma read_csv_Return files file_path df :
  read_csv files file_path = Return df →
  ∃ payload, files !! file_path = Some payload ∧ read_text payload = Return df.
Proof.
  unfold read_csv. destruct (files !! file_path) as [payload|]; [|done]. by eauto.
Qed.

(** A frame read from a payload is well formed. *)
Lemma read_csv_wf files file_path df : read_csv files file_path = Return df → pl.wf df.
Proof. intros (payload & _ & Hread)%read_csv_Return. by apply read_text_wf in Hread. Qed.

(** A plain payload is read column by column, and it is read when it
    has no more records than the type inference looks at. *)
Lemma read_csv_plain files file_path payload df :
  files !! file_path = Some payload → plain payload = true →
  read_csv files file_path = Return df →
  df = frame_of (csv_header payload) (csv_records payload).
Proof. unfold read_csv. intros -> Hplain. by apply read_text_plain. Qed.

Lemma read_csv_inferred files file_path payload :
  files !! file_path = Some payload → plain payload = true →
  (length (csv_records payload) ≤ INFER_SCHEMA_LENGTH)%nat →
  ∃ df, read_csv files file_path = Return df.
Proof. unfold read_csv. intros -> Hplain. by apply read_text_inferred. Qed.

End Load.


(** The fixture read by the small backend, with a final line feed. *)
Example load_fixture :
  (λ '(self', df), (data self', pl.shape df))
    <$> @load_csv_async small_backend init
          {[ "/tmp/upload.csv" := with_newline fixture_csv ]} "/tmp/upload.csv"
  = Return (Some sample_frame, (3%nat, 3%nat)).
Proof. vm_compute. reflexivity. Qed.

(** ** Distributions *)

Lemma dict_set_fresh {A} (k : string) (v : A) (d : Dict A) :
  k ∉ keys d → dict_set k v d = d ++ [(k, v)].
Proof.
  induction d as [|[k' v'] d IH]; [done|]. simpl.
  intros [Hne Hout]%not_elem_of_cons.
  destruct (String.eqb_spec k' k); [congruence|]. by rewrite IH.
Qed.

(** A dictionary filled key by key from distinct keys lists them in the
    order of the loop. *)
Lemma foldl_dict_set {A} (g : Dict A → string → Dict A) (F : string → A)
    (cs : list string) :
  (∀ d c, g d c = dict_set c (F c) d) →
  ∀ acc, NoDup (keys acc ++ cs) →
  foldl g acc cs = acc ++ ((λ c, (c, F c)) <$> cs).
Proof.
  intros Hg. induction cs as [|c cs IH]; intros acc Hnd; simpl.
  - by rewrite app_nil_r.
  - apply NoDup_app in Hnd as (Hacc & Hdisj & Hcs).
    apply NoDup_cons in Hcs as [Hc Hcs].
    rewrite Hg, dict_set_fresh by (intros Hin; eapply Hdisj; [exact Hin|left]).
    rewrite IH, <- app_assoc; [done|].
    unfold keys. rewrite fmap_app. simpl. rewrite <- app_assoc. simpl.
    apply NoDup_app. repeat split; [done| |by apply NoDup_cons].
    intros x Hx. by apply Hdisj.
Qed.

Lemma dict_get_fmap {A} (F : string → A) (cs : list string) c :
  c ∈ cs → dict_get c ((λ c, (c, F c)) <$> cs : Dict A) = Some (F c).
Proof.
  induction cs as [|c' cs IH]; [by intros ?%elem_of_nil|]. simpl.
  destruct (String.eqb_spec c' c) as [->|Hne]; [done|].
  intros [?|?]%elem_of_cons; [congruence|by apply IH].
Qed.

Lemma to_dicts_counts_frame s t :
  pl.to_dicts (counts_frame s t) = count_row (pl.name s) <$> t.
Proof.
  unfold pl.to_dicts. simpl. rewrite length_fmap.
  induction t as [|[v n] t IH]; [done|]. simpl. f_equal. exact IH.
Qed.

Lemma to_dicts_head_counts_frame k s t :
  pl.to_dicts (pl.head_frame k (counts_frame s t))
  = count_row (pl.name s) <$> take (pl.head_len k (length t)) t.
Proof.
  rewrite to_dicts_head.
  - rewrite to_dicts_counts_frame, fmap_take. simpl. by rewrite length_fmap.
  - repeat constructor; simpl; by rewrite !length_fmap.
Qed.

Section Distributions.
Context `{Backend}.

Lemma _get_distributions_eq self df :
  data self = Some df → NoDup (pl.columns df) →
  _get_distributions self
  = Return ((λ c, (c, entry_of df c)) <$> take 5 (pl.columns df)).
Proof.
  intros Hdata Hnd. unfold _get_distributions, held. rewrite Hdata. simpl. f_equal.
  rewrite (foldl_dict_set _ (entry_of df)); [done| |].
  - intros d c. unfold entry_of. by destruct (distribution_of df c).
  - simpl. eapply sublist_NoDup; [exact Hnd|apply sublist_take].
Qed.

Lemma entry_of_Raise df c s e :
  pl.col c df = Return s → value_counts s = Raise e →
  entry_of df c = DistributionError "Could not compute distribution".
Proof. intros Hs He. unfold entry_of, distribution_of. by rewrite Hs; simpl; rewrite He. Qed.

Lemma entry_of_Return df c s f :
  pl.col c df = Return s → value_counts s = Return f →
  entry_of df c = Counts (pl.to_dicts (pl.head_frame 10 f)).
Proof.
  intros Hs Hf. unfold entry_of, distribution_of.
  rewrite Hs; cbn [mbind Exc_bind]; rewrite Hf; cbn [mbind Exc_bind].
  by rewrite head_small.
Qed.

(** The first ten records of the frame [value_counts] returns are the
    first ten lines of its table. *)
Lemma value_counts_head s f :
  value_counts s = Return f →
  ∃ t, f = counts_frame s t ∧ count_table (pl.values s) t
    ∧ pl.to_dicts (pl.head_frame 10 f) = count_row (pl.name s) <$> take 10 t.
Proof.
  intros Hf. destruct (value_counts_table _ _ Hf) as (t & -> & Ht).
  exists t. split; [done|]. split; [done|]. by rewrite to_dicts_head_counts_frame.
Qed.
End Distributions.

(** C3: the entry [_get_distributions] computes for a column is not
    made of its most frequent values.  On a frame whose column [code]
    holds eleven distinct values, one of them twice, read through a
    library that lists the values in the order of their last
    occurrence, the entry holds the ten values that occur once and
    leaves out the value that occurs twice. *)
Theorem distributions_not_most_frequent :
  ∃ t,
    dict_get "code" <$> @_get_distributions small_backend skewed_service
    = Return (Some (Counts (count_row "code" <$> t)))
    ∧ t = (λ z, (Some (pl.VInt z), 1%nat)) <$> [0; 1; 2; 3; 4; 5; 6; 7; 8; 9]%Z
    ∧ occurrences (Some (pl.VInt 10)) (pl.values skewed_column) = 2%nat
    ∧ ¬ most_frequent (pl.values skewed_column) t.
Proof.
  exists ((λ z, (Some (pl.VInt z), 1%nat)) <$> [0; 1; 2; 3; 4; 5; 6; 7; 8; 9]%Z).
  split; [vm_compute; reflexivity|]. split; [reflexivity|].
  assert (occurrences (Some (pl.VInt 10)) (pl.values skewed_column) = 2%nat) as Hocc
    by (vm_compute; reflexivity).
  split; [exact Hocc|].
  intros Hmost.
  specialize (Hmost (Some (pl.VInt 10))).
  rewrite Hocc in Hmost.
  enough (2 ≤ 1)%nat by lia.
  apply (Hmost ltac:(apply (bool_decide_unpack _); vm_compute; reflexivity)
               ltac:(apply (bool_decide_unpack _); vm_compute; reflexivity)
               (Some (pl.VInt 0))).
  apply (bool_decide_unpack _). vm_compute. reflexivity.
Qed.

(** ** The summarisation job *)

Section Jobs.
Context `{Backend}.

Lemma mutate_Some job_id f self job :
  jobs self !! job_id = Some job →
  mutate job_id f self
  = Return {| data := data self; jobs := <[job_id := f job]> (jobs self) |}.
Proof. intros Hjob. unfold mutate. by rewrite Hjob. Qed.

(** The first stretch of the coroutine on a registered job. *)
Lemma _run_summary_job_begin_eq self job_id now job :
  jobs self !! job_id = Some job →
  _run_summary_job_begin self job_id now
  = Return
      match data self with
      | None =>
          Finished {| data := None;
                      jobs := <[job_id := set_failed now (ValueError "No data loaded")
                                            (set_running job)]> (jobs self) |}
      | Some df =>
          Sleeping {| data := Some df;
                      jobs := <[job_id := set_running job]> (jobs self) |}
      end.
Proof.
  intros Hjob. unfold _run_summary_job_begin, on_exception.
  rewrite (mutate_Some _ _ _ _ Hjob). simpl.
  destruct (data self) as [df|]; [done|].
  erewrite mutate_Some by apply lookup_insert_eq. simpl.
  by rewrite insert_insert_eq.
Qed.

Lemma _run_summary_job_resume_eq self job_id now job :
  jobs self !! job_id = Some job →
  _run_summary_job_resume self job_id now
  = Return {| data := data self;
              jobs := <[job_id := outcome_of self now job]> (jobs self) |}.
Proof.
  intros Hjob. unfold _run_summary_job_resume, on_exception, outcome_of.
  destruct (summarize self) as [e|r]; by rewrite (mutate_Some _ _ _ _ Hjob).
Qed.

(** The summaries read the held frame and nothing else. *)
Lemma summarize_data self1 self2 : data self1 = data self2 → summarize self1 = summarize self2.
Proof.
  intros Hdata.
  unfold summarize, _get_basic_statistics, _get_missing_values, _get_distributions, held.
  by rewrite Hdata.
Qed.

(** A frame with a column and no row: the first division raises. *)
Lemma _get_missing_values_zero_rows self df :
  data self = Some df → df ≠ [] → pl.height df = 0%nat →
  _get_missing_values self = Raise (ZeroDivisionError "division by zero").
Proof.
  intros Hdata Hne Hheight. unfold _get_missing_values, held. rewrite Hdata.
  destruct df as [|s df]; [done|]. cbn [mbind Exc_bind pl.columns fmap list_fmap for_each pl.col].
  rewrite String.eqb_refl. cbn [mbind Exc_bind].
  unfold pl.shape. rewrite Hheight. reflexivity.
Qed.

Lemma summarize_zero_rows self df :
  data self = Some df → df ≠ [] → pl.height df = 0%nat →
  ∃ e, summarize self = Raise e
    ∧ (∀ stats, _get_basic_statistics self = Return stats →
         e = ZeroDivisionError "division by zero").
Proof.
  intros Hdata Hne Hheight. unfold summarize.
  destruct (_get_basic_statistics self) as [e|stats]; [by exists e|].
  rewrite (_get_missing_values_zero_rows _ _ Hdata Hne Hheight).
  eexists. split; [reflexivity|done].
Qed.
End Jobs.

(** C4: on a registered job, neither stretch of [_run_summary_job] lets
    an exception out.  Started with no frame held, the job is left failed
    with the text of the no-data error and the clock reading; when the
    summarisation raises after the sleep, the job is left failed with the
    text of that exception and the clock reading. *)
Theorem summary_failure_is_trapped `{Backend} (self : DataService)
    (job_id now : string) (job : Job) :
  jobs self !! job_id = Some job →
  (∃ outcome, _run_summary_job_begin self job_id now = Return outcome
     ∧ (data self = None →
          ∃ self' job', outcome = Finished self' ∧ jobs self' !! job_id = Some job'
            ∧ status job' = failed ∧ error job' = Some "No data loaded"
            ∧ completed_at job' = Some now))
  ∧ (∃ self', _run_summary_job_resume self job_id now = Return self'
       ∧ ∀ e, summarize self = Raise e →
           ∃ job', jobs self' !! job_id = Some job'
             ∧ status job' = failed ∧ error job' = Some (str e)
             ∧ completed_at job' = Some now).
Proof.
  intros Hjob. split.
  - eexists. split; [by apply _run_summary_job_begin_eq|].
    intros ->. do 2 eexists. split; [reflexivity|]. simpl.
    by rewrite lookup_insert_eq.
  - eexists. split; [by apply _run_summary_job_resume_eq|].
    intros e He. eexists. simpl. rewrite lookup_insert_eq. split; [reflexivity|].
    unfold outcome_of. by rewrite He.
Qed.

Lemma summary_failure_is_trapped_witness :
  (∃ outcome,
     _run_summary_job_begin idle_service "j1" "2024-01-01T00:00:02" = Return outcome
     ∧ (data idle_service = None →
          ∃ self' job', outcome = Finished self' ∧ jobs self' !! "j1" = Some job'
            ∧ status job' = failed ∧ error job' = Some "No data loaded"
            ∧ completed_at job' = Some "2024-01-01T00:00:02"))
  ∧ (∃ self',
       @_run_summary_job_resume small_backend idle_service "j1" "2024-01-01T00:00:02"
       = Return self'
       ∧ ∀ e, @summarize small_backend idle_service = Raise e →
           ∃ job', jobs self' !! "j1" = Some job'
             ∧ status job' = failed ∧ error job' = Some (str e)
             ∧ completed_at job' = Some "2024-01-01T00:00:02").
Proof.
  apply (@summary_failure_is_trapped small_backend idle_service
           "j1" "2024-01-01T00:00:02" pending_job).
  apply lookup_singleton_eq.
Defined.



(** ** The life of a job under the event loop *)

Lemma lifecycle_terminal s s' : terminal s → rtc lifecycle s s' → s' = s.
Proof. intros Hs Hrtc. destruct Hrtc as [|? ? ? Hstep _]; [done|]. by destruct Hs, Hstep. Qed.

Section Lifecycle.
Context `{Backend}.

Lemma job_ok_failed now e job : result job = None → job_ok (set_failed now e job).
Proof. intros Hr. unfold job_ok. simpl. by eauto. Qed.

Lemma job_ok_completed now r job : error job = None → job_ok (set_completed now r job).
Proof. intros He. unfold job_ok. simpl. by eauto. Qed.

(** A registered job whose task is at a given stage. *)
Lemma staged_job w id stage :
  inv w → tasks w !! id = Some stage →
  ∃ job, jobs (service w) !! id = Some job ∧ job_ok job
    ∧ stage_ok (Some stage) (status job).
Proof.
  intros [Hjobs Htasks] Hstage.
  destruct (jobs (service w) !! id) as [job|] eqn:Hjob;
    [|by rewrite (Htasks _ Hjob) in Hstage].
  destruct (Hjobs _ _ Hjob) as [Hok Hst]. rewrite Hstage in Hst. by eauto.
Qed.

(** An event that runs the coroutine of [id] replaces the record of
    [id], moving a record that is not terminal forward, and touches
    nothing else. *)
Lemma exec_task w ev w' id :
  inv w → exec w ev = Some w' → task_of ev = Some id →
  ∃ job job' stage',
    jobs (service w) !! id = Some job ∧ ¬ terminal (status job)
    ∧ job_ok job' ∧ stage_ok (Some stage') (status job')
    ∧ rtc lifecycle (status job) (status job')
    ∧ jobs (service w') = <[id := job']> (jobs (service w))
    ∧ tasks w' = <[id := stage']> (tasks w).
Proof.
  intros Hinv Hexec Hev.
  destruct ev as [df|job_id now loop|job_id now|job_id now]; simplify_eq/=.
  - destruct (tasks w !! id) as [[]|] eqn:Hstage; try done.
    destruct (staged_job _ _ _ Hinv Hstage) as (job & Hjob & Hok & Hst).
    simpl in Hst. unfold job_ok in Hok. rewrite Hst in Hok.
    destruct Hok as (Hc & Hr & He).
    rewrite (_run_summary_job_begin_eq _ _ _ _ Hjob) in Hexec.
    destruct (data (service w)) as [df|]; simplify_eq/=.
    + exists job, (set_running job), Asleep. rewrite Hst.
      split; [done|]. split; [by intros [|]|]. split; [done|]. split; [done|].
      split; [|done]. apply rtc_once. constructor.
    + exists job, (set_failed now (ValueError "No data loaded") (set_running job)), Ended.
      rewrite Hst.
      split; [done|]. split; [by intros [|]|]. split; [by apply job_ok_failed|].
      split; [by right|]. split; [|done].
      eapply rtc_l; [constructor|]. apply rtc_once. constructor.
  - destruct (tasks w !! id) as [[]|] eqn:Hstage; try done.
    destruct (staged_job _ _ _ Hinv Hstage) as (job & Hjob & Hok & Hst).
    simpl in Hst. unfold job_ok in Hok. rewrite Hst in Hok.
    destruct Hok as (Hc & Hr & He).
    rewrite (_run_summary_job_resume_eq _ _ _ _ Hjob) in Hexec. simplify_eq/=.
    exists job, (outcome_of (service w) now job), Ended. rewrite Hst.
    split; [done|]. split; [by intros [|]|].
    unfold outcome_of. destruct (summarize (service w)) as [e|r].
    + split; [by apply job_ok_failed|]. split; [by right|]. split; [|done].
      apply rtc_once. constructor.
    + split; [by apply job_ok_completed|]. split; [by left|]. split; [|done].
      apply rtc_once. constructor.
Qed.

(** The other events leave every registered record as it is; a
    creation adds a pending record under an unused identifier. *)
Lemma exec_other w ev w' :
  exec w ev = Some w' → task_of ev = None →
  (jobs (service w') = jobs (service w) ∧ tasks w' = tasks w)
  ∨ ∃ id now loop,
      ev = Create id now loop ∧ jobs (service w) !! id = None
      ∧ jobs (service w')
        = <[id := {| status := pending; created_at := now; completed_at := None;
                     result := None; error := None |}]> (jobs (service w))
      ∧ tasks w' = if loop then <[id := Scheduled]> (tasks w) else tasks w.
Proof.
  intros Hexec Hev.
  destruct ev as [df|job_id now loop|job_id now|job_id now]; simplify_eq/=.
  - by left.
  - right. destruct (jobs (service w) !! job_id) eqn:Hjob; [done|].
    exists job_id, now, loop. destruct loop; by simplify_eq/=.
Qed.

Lemma exec_inv w ev w' : inv w → exec w ev = Some w' → inv w'.
Proof.
  intros Hinv Hexec. destruct (task_of ev) as [id|] eqn:Hev.
  - destruct (exec_task _ _ _ _ Hinv Hexec Hev)
      as (job & job' & stage' & Hjob & _ & Hok & Hst & _ & Hjobs' & Htasks').
    destruct Hinv as [Hjobs Htasks]. split.
    + intros id0 job0. rewrite Hjobs', Htasks'.
      destruct (decide (id = id0)) as [->|Hne].
      * rewrite !lookup_insert_eq. by intros [= <-].
      * rewrite !lookup_insert_ne by done. apply Hjobs.
    + intros id0. rewrite Hjobs', Htasks'.
      destruct (decide (id = id0)) as [->|Hne]; [by rewrite lookup_insert_eq|].
      rewrite !lookup_insert_ne by done. apply Htasks.
  - destruct Hinv as [Hjobs Htasks].
    destruct (exec_other _ _ _ Hexec Hev)
      as [[Hjobs' Htasks']|(id & now & loop & -> & Hfresh & Hjobs' & Htasks')];
      unfold inv; rewrite ?Hjobs', ?Htasks'; [by split|].
    split.
    + intros id0 job0. destruct (decide (id = id0)) as [->|Hne].
      * rewrite lookup_insert_eq. intros [= <-]. split; [done|].
        destruct loop; [by rewrite lookup_insert_eq|by rewrite (Htasks _ Hfresh)].
      * rewrite lookup_insert_ne by done. intros Hjob0.
        destruct loop; [rewrite lookup_insert_ne by done|]; by apply Hjobs.
    + intros id0. destruct (decide (id = id0)) as [->|Hne];
        [by rewrite lookup_insert_eq|].
      rewrite lookup_insert_ne by done. intros Hnone.
      destruct loop; [rewrite lookup_insert_ne by done|]; by apply Htasks.
Qed.

Lemma run_inv evs : ∀ w w', inv w → run w evs = Some w' → inv w'.
Proof.
  induction evs as [|ev evs IH]; intros w w' Hinv Hrun; simplify_eq/=; [done|].
  destruct (exec w ev) as [w1|] eqn:Hexec; [|done].
  eapply IH; [|exact Hrun]. by eapply exec_inv.
Qed.

Lemma inv_world0 : inv world0.
Proof. split; intros id; simpl; [intros job|]; by rewrite lookup_empty. Qed.

Lemma reachable_inv w : reachable w → inv w.
Proof. intros [evs Hrun]. eapply run_inv; [apply inv_world0|exact Hrun]. Qed.

(** What one event does to a registered record. *)
Lemma exec_job w ev w' id job :
  inv w → exec w ev = Some w' → jobs (service w) !! id = Some job →
  ∃ job', jobs (service w') !! id = Some job'
    ∧ rtc lifecycle (status job) (status job')
    ∧ (terminal (status job) → job' = job)
    ∧ (task_of ev ≠ Some id → job' = job).
Proof.
  intros Hinv Hexec Hjob. destruct (task_of ev) as [id'|] eqn:Hev.
  - destruct (exec_task _ _ _ _ Hinv Hexec Hev)
      as (job0 & job' & stage' & Hjob0 & Hactive & _ & _ & Hrtc & Hjobs' & _).
    rewrite Hjobs'. destruct (decide (id' = id)) as [->|Hne].
    + rewrite lookup_insert_eq. simplify_eq. exists job'. by repeat split.
    + rewrite lookup_insert_ne by done. exists job. by repeat split.
  - destruct (exec_other _ _ _ Hexec Hev)
      as [[Hjobs' _]|(id' & now & loop & _ & Hfresh & Hjobs' & _)]; rewrite Hjobs'.
    + exists job. by repeat split.
    + rewrite lookup_insert_ne by congruence. exists job. by repeat split.
Qed.

(** The same along any run. *)
Lemma run_job evs : ∀ w w' id job,
  inv w → run w evs = Some w' → jobs (service w) !! id = Some job →
  ∃ job', jobs (service w') !! id = Some job'
    ∧ rtc lifecycle (status job) (status job')
    ∧ (terminal (status job) → job' = job)
    ∧ (Forall (λ ev, task_of ev ≠ Some id) evs → job' = job).
Proof.
  induction evs as [|ev evs IH]; intros w w' id job Hinv Hrun Hjob; simplify_eq/=.
  - exists job. by repeat split.
  - destruct (exec w ev) as [w1|] eqn:Hexec; [|done]. simpl in Hrun.
    destruct (exec_job _ _ _ _ _ Hinv Hexec Hjob) as (job1 & Hjob1 & Hrtc1 & Hterm1 & Hsame1).
    destruct (IH _ _ _ _ (exec_inv _ _ _ Hinv Hexec) Hrun Hjob1)
      as (job' & Hjob' & Hrtc & Hterm & Hsame).
    exists job'. split; [done|]. split; [by etrans|]. split.
    + intros Ht. rewrite (Hterm1 Ht) in Hterm. rewrite Hterm; auto.
    + intros [Hev Hevs]%Forall_cons. rewrite (Hsame1 Hev) in Hsame. auto.
Qed.
End Lifecycle.

Lemma demo_world_reachable : @reachable small_backend demo_world.
Proof. exists demo_events. vm_compute. reflexivity. Defined.

(** C5: in every world the service can reach, a pending or running
    record has no completion time, no result and no error; a completed
    record has a completion time and a result and no error; a failed
    record has a completion time and an error and no result. *)
Theorem job_fields_by_status `{Backend} (w : World) (id : string) (job : Job) :
  reachable w → jobs (service w) !! id = Some job →
  (status job = pending ∨ status job = running →
     completed_at job = None ∧ result job = None ∧ error job = None)
  ∧ (status job = completed →
       is_Some (completed_at job) ∧ is_Some (result job) ∧ error job = None)
  ∧ (status job = failed →
       is_Some (completed_at job) ∧ is_Some (error job) ∧ result job = None).
Proof.
  intros Hinv%reachable_inv Hjob. destruct Hinv as [Hjobs _].
  destruct (Hjobs _ _ Hjob) as [Hok _]. unfold job_ok in Hok.
  split; [|split].
  - by intros [Hs|Hs]; rewrite Hs in Hok.
  - intros Hs. by rewrite Hs in Hok.
  - intros Hs. rewrite Hs in Hok. tauto.
Qed.

Lemma job_fields_by_status_witness :
  (status demo_job = pending ∨ status demo_job = running →
     completed_at demo_job = None ∧ result demo_job = None ∧ error demo_job = None)
  ∧ (status demo_job = completed →
       is_Some (completed_at demo_job) ∧ is_Some (result demo_job)
       ∧ error demo_job = None)
  ∧ (status demo_job = failed →
       is_Some (completed_at demo_job) ∧ is_Some (error demo_job)
       ∧ result demo_job = None).
Proof.
  apply (@job_fields_by_status small_backend demo_world "j1" demo_job);
    [exact demo_world_reachable | vm_compute; reflexivity].
Defined.

(** C6: in every world the service can reach, a creation stores a
    pending record; along any run a registered record moves only along
    the edges pending to running, running to completed or failed; a
    record that is completed or failed stays as it is; and a run with
    no event of the job's own coroutine leaves its record as it is. *)
Theorem status_moves_forward `{Backend} (w : World) :
  reachable w →
  (∀ id now loop w',
     exec w (Create id now loop) = Some w' →
     ∃ job, jobs (service w') !! id = Some job ∧ status job = pending)
  ∧ (∀ evs w' id job,
       run w evs = Some w' → jobs (service w) !! id = Some job →
       ∃ job', jobs (service w') !! id = Some job'
         ∧ rtc lifecycle (status job) (status job')
         ∧ (terminal (status job) → job' = job)
         ∧ (Forall (λ ev, task_of ev ≠ Some id) evs → job' = job)).
Proof.
  intros Hinv%reachable_inv. split.
  - intros id now loop w' Hexec. simpl in Hexec.
    destruct (jobs (service w) !! id); [done|].
    destruct loop; simplify_eq/=; rewrite lookup_insert_eq; by eauto.
  - intros evs w' id job. by apply run_job.
Qed.

Lemma status_moves_forward_witness :
  (∀ id now loop w',
     @exec small_backend demo_world (Create id now loop) = Some w' →
     ∃ job, jobs (service w') !! id = Some job ∧ status job = pending)
  ∧ (∀ evs w' id job,
       @run small_backend demo_world evs = Some w' →
       jobs (service demo_world) !! id = Some job →
       ∃ job', jobs (service w') !! id = Some job'
         ∧ rtc lifecycle (status job) (status job')
         ∧ (terminal (status job) → job' = job)
         ∧ (Forall (λ ev, task_of ev ≠ Some id) evs → job' = job)).
Proof.
  apply (@status_moves_forward small_backend demo_world). exact demo_world_reachable.
Defined.

(** The run of the demo, observed: the job goes from pending through
    running to completed, and stays completed under later events. *)
Example demo_job_statuses :
  (λ evs, w ← @run small_backend world0 evs; status <$> jobs (service w) !! "j1")
  <$> [ take 2 demo_events; demo_events;
        demo_events ++ [Wake "j1" "2024-01-01T00:00:03"];
        demo_events ++ [Wake "j1" "2024-01-01T00:00:03"; Loaded empty_frame;
                        Create "j2" "2024-01-01T00:00:04" true;
                        Begin "j2" "2024-01-01T00:00:05"] ]
  = [Some pending; Some running; Some completed; Some completed].
Proof. vm_compute. reflexivity. Qed.

(** C8: [get_job_status] raises the not-found error exactly when the
    identifier is not registered, and returns the registered record
    otherwise; an identifier registered by a creation stays registered
    along any run, so that its current record is returned. *)
Theorem get_job_status_found_iff `{Backend} (self : DataService) (job_id : string) :
  (get_job_status self job_id = Raise (ValueError "Job not found")
   ↔ jobs self !! job_id = None)
  ∧ (∀ job, get_job_status self job_id = Return job ↔ jobs self !! job_id = Some job)
  ∧ (∀ w now loop w1 evs w2,
       reachable w → service w = self →
       exec w (Create job_id now loop) = Some w1 → run w1 evs = Some w2 →
       ∃ job, jobs (service w2) !! job_id = Some job
         ∧ get_job_status (service w2) job_id = Return job).
Proof.
  unfold get_job_status. split; [|split].
  - by destruct (jobs self !! job_id).
  - intros job. destruct (jobs self !! job_id); split; by intros [= ->] || done.
  - intros w now loop w1 evs w2 Hreach _ Hexec Hrun.
    assert (inv w1) as Hinv1 by (eapply exec_inv; [by apply reachable_inv|exact Hexec]).
    assert (∃ job1, jobs (service w1) !! job_id = Some job1) as [job1 Hjob1].
    { simpl in Hexec. destruct (jobs (service w) !! job_id); [done|].
      destruct loop; simplify_eq/=; rewrite lookup_insert_eq; by eauto. }
    destruct (run_job _ _ _ _ _ Hinv1 Hrun Hjob1) as (job & Hjob & _).
    exists job. by rewrite Hjob.
Qed.

Lemma get_job_status_found_iff_witness :
  ∃ job, jobs (service demo_world) !! "j1" = Some job
    ∧ get_job_status (service demo_world) "j1" = Return job.
Proof.
  apply (proj2 (proj2 (@get_job_status_found_iff small_backend
                         {| data := Some sample_frame; jobs := ∅ |} "j1"))
           {| service := {| data := Some sample_frame; jobs := ∅ |}; tasks := ∅ |}
           "2024-01-01T00:00:00" true
           (default world0 (@run small_backend world0 (take 2 demo_events)))
           [Begin "j1" "2024-01-01T00:00:01"] demo_world).
  - exists [Loaded sample_frame]. vm_compute. reflexivity.
  - reflexivity.
  - vm_compute. reflexivity.
  - vm_compute. reflexivity.
Defined.

(** * Further properties of the service *)

(** ** Records and schema *)

Lemma keys_heads df : keys (pl.heads df) = pl.columns df.
Proof.
  unfold keys, pl.heads, pl.columns. rewrite <- list_fmap_compose.
  by apply list_fmap_ext.
Qed.

Lemma rows_of_keys n : ∀ df, Forall (λ r, keys r = pl.columns df) (pl.rows_of n df).
Proof.
  induction n as [|n IH]; intros df; [constructor|]. simpl. constructor.
  - apply keys_heads.
  - rewrite <- (columns_tails df). apply IH.
Qed.

Lemma dict_get_is_Some {A} (d : Dict A) c : c ∈ keys d → is_Some (dict_get c d).
Proof.
  induction d as [|[k v] d IH]; [by intros ?%elem_of_nil|]. simpl.
  destruct (String.eqb_spec k c) as [->|Hne]; [by eauto|].
  intros [?|?]%elem_of_cons; [congruence|by apply IH].
Qed.

Lemma elem_of_kept (P : pl.Row → Prop) `{∀ r, Decision (P r)} n (l : list pl.Row) r :
  r ∈ take n (filter P l) → r ∈ l ∧ P r.
Proof.
  intros (i & Hr & _)%elem_of_take. apply list_elem_of_lookup_2 in Hr.
  apply list_elem_of_filter in Hr. tauto.
Qed.

(** X1: every record [query_data] returns has exactly the columns of
    the held frame as keys, in schema order, whatever the filters and
    the limit. *)
Theorem query_data_records_follow_schema (self : DataService) (df : pl.DataFrame)
    (filters : list Filter) (limit : Z) (rows : list pl.Row) :
  data self = Some df → pl.wf df →
  query_data self filters limit = Return rows →
  Forall (λ r, keys r = pl.columns df
               ∧ ∀ c, c ∈ pl.columns df → is_Some (dict_get c r)) rows.
Proof.
  intros Hdata Hwf Hq. apply (query_data_Return _ _ _ _ _ Hdata Hwf) in Hq as [_ ->].
  apply Forall_forall. intros r [Hr _]%elem_of_kept.
  pose proof (rows_of_keys (pl.height df) df) as Hkeys.
  rewrite Forall_forall in Hkeys. specialize (Hkeys r Hr).
  split; [done|]. intros c Hc. apply dict_get_is_Some. by rewrite Hkeys.
Qed.

Lemma query_data_records_follow_schema_witness :
  Forall (λ r, keys r = pl.columns sample_frame
               ∧ ∀ c, c ∈ pl.columns sample_frame → is_Some (dict_get c r))
    [ [("SEX (DISPLAY)", Some (pl.VStr "Female"));
       ("YEAR (DISPLAY)", Some (pl.VInt 2001));
       ("Numeric", Some (pl.VInt 20))] ].
Proof.
  apply (query_data_records_follow_schema sample_service sample_frame
           [ {| column := "SEX (DISPLAY)"; value := "Fem" |} ] 10);
    [reflexivity | exact sample_frame_wf | reflexivity].
Defined.







Lemma foldl_dict_set_pairs {A B} (F : B → A) (l : list (string * B)) :
  ∀ acc : Dict A, NoDup (keys acc ++ l.*1) →
  foldl (λ d '(c, t), dict_set c (F t) d) acc l = acc ++ (prod_map id F <$> l).
Proof.
  induction l as [|[c t] l IH]; intros acc Hnd; simpl.
  - by rewrite app_nil_r.
  - simpl in Hnd. apply NoDup_app in Hnd as (Hacc & Hdisj & Hl).
    apply NoDup_cons in Hl as [Hc Hl].
    rewrite dict_set_fresh by (intros Hin; eapply Hdisj; [exact Hin|left]).
    rewrite IH, <- app_assoc; [done|].
    unfold keys. rewrite fmap_app. simpl. rewrite <- app_assoc. simpl.
    apply NoDup_app. repeat split; [done| |by apply NoDup_cons].
    intros x Hx. by apply Hdisj.
Qed.

Lemma zip_columns_dtypes df :
  zip (pl.columns df) (pl.dtypes df) = (λ s, (pl.name s, pl.dtype s)) <$> df.
Proof. induction df as [|s df IH]; [done|]. simpl. by f_equal. Qed.

(** X5: on a held frame [get_schema] lists every column with the name
    of its type, in schema order, and its sample is the first five
    records of the frame: what [query_data] answers without filters
    under the limit 5. *)
Theorem get_schema_contents (self : DataService) (df : pl.DataFrame) :
  data self = Some df → pl.wf df →
  ∃ schema,
    get_schema self = Return schema
    ∧ schema_dtypes schema = (λ s, (pl.name s, pl.dtype_str (pl.dtype s))) <$> df
    ∧ keys (schema_dtypes schema) = schema_columns schema
    ∧ schema_shape schema = (length (pl.to_dicts df), length (schema_columns schema))
    ∧ sample_data schema = take 5 (pl.to_dicts df)
    ∧ query_data self [] 5 = Return (sample_data schema).
Proof.
  intros Hdata Hwf. rewrite (get_schema_eq _ _ Hdata).
  eexists. split; [reflexivity|]. simpl.
  assert (foldl (λ d '(c, t), dict_set c (pl.dtype_str t) d) []
            (zip (pl.columns df) (pl.dtypes df))
          = (λ s, (pl.name s, pl.dtype_str (pl.dtype s))) <$> df) as ->.
  { rewrite foldl_dict_set_pairs.
    - simpl. rewrite zip_columns_dtypes, <- list_fmap_compose. by apply list_fmap_ext.
    - simpl. rewrite zip_columns_dtypes, <- list_fmap_compose. apply Hwf. }
  split; [done|]. split.
  { unfold keys, pl.columns. rewrite <- list_fmap_compose. by apply list_fmap_ext. }
  split.
  { unfold pl.shape, pl.width, pl.columns. by rewrite length_to_dicts, length_fmap. }
  rewrite to_dicts_head by apply Hwf. split; [done|].
  rewrite (query_data_small _ _ _ _ Hdata Hwf) by done.
  rewrite filter_all by (intros; constructor). done.
Qed.

Lemma get_schema_contents_witness :
  ∃ schema,
    get_schema sample_service = Return schema
    ∧ schema_dtypes schema
      = (λ s, (pl.name s, pl.dtype_str (pl.dtype s))) <$> sample_frame
    ∧ keys (schema_dtypes schema) = schema_columns schema
    ∧ schema_shape schema
      = (length (pl.to_dicts sample_frame), length (schema_columns schema))
    ∧ sample_data schema = take 5 (pl.to_dicts sample_frame)
    ∧ query_data sample_service [] 5 = Return (sample_data schema).
Proof.
  apply (get_schema_contents sample_service sample_frame);
    [reflexivity | exact sample_frame_wf].
Defined.

(** ** The three summaries *)

Lemma null_count_le s : (pl.null_count s ≤ length (pl.values s))%nat.
Proof.
  unfold pl.null_count. induction (pl.values s) as [|[v|] vs IH]; simpl; lia.
Qed.

(** The loop of [_get_missing_values] over distinct columns of a frame
    with rows. *)
Lemma missing_values_loop df0 (n : nat) : (0 < n)%nat → ∀ df acc,
  (∀ s, s ∈ df → pl.col (pl.name s) df0 = Return s) →
  NoDup (keys acc ++ pl.columns df) →
  for_each (λ missing col,
      s ← pl.col col df0;
      let null_count := Z.of_nat (pl.null_count s) in
      ratio ← truediv null_count (Z.of_nat n);
      Return (dict_set col {| null_count := null_count;
                              null_percentage := PrimFloat.mul ratio (to_float 100) |} missing))
    acc (pl.columns df)
  = Return (acc ++ (missing_entry n <$> df)).
Proof.
  intros Hn.
  match goal with |- ∀ df acc, _ → _ → for_each ?b _ _ = _ => set (body := b) end.
  induction df as [|s df IH]; intros acc Hcol Hnd.
  - simpl. by rewrite app_nil_r.
  - change (for_each body acc (pl.columns (s :: df)))
      with (body acc (pl.name s) ≫= λ acc', for_each body acc' (pl.columns df)).
    assert (body acc (pl.name s)
            = Return (dict_set (pl.name s) (missing_entry n s).2 acc)) as ->.
    { unfold body. rewrite (Hcol s) by left. cbn [mbind Exc_bind]. unfold truediv.
      by destruct (Z.eqb_spec (Z.of_nat n) 0) as [?|_]; [lia|]. }
    cbn [mbind Exc_bind].
    simpl in Hnd. apply NoDup_app in Hnd as (Hacc & Hdisj & Hl).
    apply NoDup_cons in Hl as [Hc Hl].
    rewrite dict_set_fresh by (intros Hin; eapply Hdisj; [exact Hin|left]).
    rewrite IH.
    + simpl. by rewrite <- app_assoc.
    + intros s' Hs'. apply Hcol. by right.
    + unfold keys. rewrite fmap_app. simpl. rewrite <- app_assoc. simpl.
      apply NoDup_app. repeat split; [done| |by apply NoDup_cons].
      intros x Hx. by apply Hdisj.
Qed.

Lemma col_own df : NoDup (pl.columns df) → ∀ s, s ∈ df → pl.col (pl.name s) df = Return s.
Proof.
  induction df as [|s0 df IH]; intros Hnd s Hs; [by apply elem_of_nil in Hs|].
  simpl in Hnd. apply NoDup_cons in Hnd as [Hfresh Hnd]. simpl.
  apply elem_of_cons in Hs as [->|Hs]; [by rewrite String.eqb_refl|].
  destruct (String.eqb_spec (pl.name s0) (pl.name s)) as [Heq|_]; [|by apply IH].
  exfalso. apply Hfresh. rewrite Heq. unfold pl.columns. by apply list_elem_of_fmap_2.
Qed.

Lemma _get_missing_values_eq self df :
  data self = Some df → pl.wf df → (0 < pl.height df)%nat →
  _get_missing_values self = Return (missing_entry (pl.height df) <$> df).
Proof.
  intros Hdata Hwf Hrows. unfold _get_missing_values, held. rewrite Hdata.
  exact (missing_values_loop df (pl.height df) Hrows df []
           (col_own df (proj1 Hwf)) (proj1 Hwf)).
Qed.



(** One null cell among three rows: the percentage is the float Python
    prints as 33.33333333333333. *)
Example missing_values_one_third :
  dict_get "YEAR (DISPLAY)" <$> _get_missing_values sample_service
  = Return (Some {| null_count := 1; null_percentage := 0x1.0aaaaaaaaaaaap+5%float |}).
Proof. vm_compute. reflexivity. Qed.

Lemma numeric_cols_eq df :
  zip (pl.columns df) (pl.dtypes df)
    ≫= (λ '(col, dtype), if is_numeric dtype then [col] else [])
  = pl.columns (numeric_columns df).
Proof.
  induction df as [|s df IH]; [done|].
  unfold numeric_columns in *. rewrite filter_cons. simpl.
  unfold mbind in IH. rewrite IH.
  destruct (is_numeric (pl.dtype s)); case_decide; simpl in *; done || tauto.
Qed.

Lemma mapM_col df0 df :
  (∀ s, s ∈ df → pl.col (pl.name s) df0 = Return s) →
  mapM (λ c, pl.col c df0) (pl.columns df) = Return df.
Proof.
  induction df as [|s df IH]; intros Hcol; [done|]. simpl.
  rewrite (Hcol s) by left. cbn [mbind Exc_bind].
  rewrite IH by (intros s' Hs'; apply Hcol; by right). done.
Qed.

Lemma select_numeric df :
  NoDup (pl.columns df) →
  select (pl.columns (numeric_columns df)) df = Return (numeric_columns df).
Proof.
  intros Hnd. unfold select. apply mapM_col. intros s Hs.
  apply col_own; [done|]. unfold numeric_columns in Hs.
  by apply list_elem_of_filter in Hs as [_ Hs].
Qed.

Section Statistics.
Context `{Backend}.


Lemma summarize_eq self df b :
  data self = Some df → pl.wf df → (0 < pl.height df)%nat →
  _get_basic_statistics self = Return b →
  summarize self
  = Return {| basic_statistics := b;
              missing_values := missing_entry (pl.height df) <$> df;
              distributions := (λ c, (c, entry_of df c)) <$> take 5 (pl.columns df) |}.
Proof.
  intros Hdata Hwf Hrows Hb. unfold summarize.
  rewrite Hb, (_get_missing_values_eq _ _ Hdata Hwf Hrows).
  by rewrite (_get_distributions_eq _ _ Hdata (proj1 Hwf)).
Qed.

End Statistics.

Lemma text_frame_wf : pl.wf text_frame.
Proof. apply (bool_decide_unpack _). vm_compute. reflexivity. Defined.



(** ** Jobs under the event loop, continued *)

Section Scheduling.
Context `{Backend}.

Lemma exec_Begin w id now job :
  tasks w !! id = Some Scheduled → jobs (service w) !! id = Some job →
  exec w (Begin id now)
  = Some match data (service w) with
         | None =>
             {| service :=
                  {| data := None;
                     jobs := <[id := set_failed now (ValueError "No data loaded")
                                       (set_running job)]> (jobs (service w)) |};
                tasks := <[id := Ended]> (tasks w) |}
         | Some df =>
             {| service :=
                  {| data := Some df;
                     jobs := <[id := set_running job]> (jobs (service w)) |};
                tasks := <[id := Asleep]> (tasks w) |}
         end.
Proof.
  intros Hstage Hjob. simpl. rewrite Hstage.
  rewrite (_run_summary_job_begin_eq _ _ _ _ Hjob). by destruct (data (service w)).
Qed.

Lemma exec_Wake w id now job :
  tasks w !! id = Some Asleep → jobs (service w) !! id = Some job →
  exec w (Wake id now)
  = Some {| service :=
              {| data := data (service w);
                 jobs := <[id := outcome_of (service w) now job]> (jobs (service w)) |};
            tasks := <[id := Ended]> (tasks w) |}.
Proof.
  intros Hstage Hjob. simpl. rewrite Hstage.
  by rewrite (_run_summary_job_resume_eq _ _ _ _ Hjob).
Qed.

Lemma exec_Loaded w df :
  exec w (Loaded df)
  = Some {| service := {| data := Some df; jobs := jobs (service w) |};
            tasks := tasks w |}.
Proof. reflexivity. Qed.

(** X9: a job summarises the frame held when it wakes, not the one
    held when it started: if another frame is loaded while the job
    sleeps, the record it leaves is the one the summarisation of the
    new frame gives. *)
Theorem job_reads_frame_held_at_wake (w : World) (id now1 now2 : string)
    (df2 : pl.DataFrame) :
  reachable w → tasks w !! id = Some Scheduled → is_Some (data (service w)) →
  ∃ job w',
    jobs (service w) !! id = Some job
    ∧ run w [Begin id now1; Loaded df2; Wake id now2] = Some w'
    ∧ data (service w') = Some df2
    ∧ jobs (service w') !! id
      = Some (outcome_of {| data := Some df2; jobs := ∅ |} now2 (set_running job)).
Proof.
  intros Hinv%reachable_inv Hstage [df1 Hdata].
  destruct (staged_job _ _ _ Hinv Hstage) as (job & Hjob & _ & _).
  exists job. eexists. split; [done|].
  cbn [run]. rewrite (exec_Begin _ _ _ _ Hstage Hjob), Hdata.
  cbn [mbind option_bind]. rewrite exec_Loaded. cbn [mbind option_bind].
  erewrite exec_Wake; [|apply lookup_insert_eq|apply lookup_insert_eq].
  cbn [mbind option_bind run service data jobs tasks].
  split; [reflexivity|]. cbn [service data jobs tasks]. split; [done|].
  by rewrite lookup_insert_eq.
Qed.

(** X10: a task that has not ended can always run to its end: from a
    reachable world, at most two events of the job's own coroutine
    leave the job completed or failed and its task ended. *)
Theorem task_can_finish (w : World) (id now : string) (stage : Stage) :
  reachable w → tasks w !! id = Some stage → stage ≠ Ended →
  ∃ evs w' job',
    (length evs ≤ 2)%nat ∧ Forall (λ ev, task_of ev = Some id) evs
    ∧ run w evs = Some w'
    ∧ jobs (service w') !! id = Some job' ∧ terminal (status job')
    ∧ tasks w' !! id = Some Ended.
Proof.
  intros Hinv%reachable_inv Hstage Hne.
  destruct (staged_job _ _ _ Hinv Hstage) as (job & Hjob & _ & _).
  destruct stage; [| |done].
  - destruct (data (service w)) as [df|] eqn:Hdata.
    + exists [Begin id now; Wake id now]. do 2 eexists.
      split; [simpl; lia|]. split; [by repeat constructor|].
      cbn [run]. rewrite (exec_Begin _ _ _ _ Hstage Hjob), Hdata.
      cbn [mbind option_bind].
      erewrite exec_Wake; [|apply lookup_insert_eq|apply lookup_insert_eq].
      cbn [mbind option_bind run service data jobs tasks].
      split; [reflexivity|]. cbn [service data jobs tasks]. rewrite !lookup_insert_eq.
      split; [reflexivity|]. split; [|done].
      unfold outcome_of. destruct (summarize _); [by right|by left].
    + exists [Begin id now]. do 2 eexists.
      split; [simpl; lia|]. split; [by repeat constructor|].
      cbn [run]. rewrite (exec_Begin _ _ _ _ Hstage Hjob), Hdata.
      cbn [mbind option_bind run service data jobs tasks].
      split; [reflexivity|]. cbn [service data jobs tasks]. rewrite !lookup_insert_eq.
      split; [reflexivity|]. split; [by right|done].
  - exists [Wake id now]. do 2 eexists.
    split; [simpl; lia|]. split; [by repeat constructor|].
    cbn [run]. rewrite (exec_Wake _ _ _ _ Hstage Hjob).
    cbn [mbind option_bind run service data jobs tasks].
    split; [reflexivity|]. cbn [service data jobs tasks]. rewrite !lookup_insert_eq.
    split; [reflexivity|]. split; [|done].
    unfold outcome_of. destruct (summarize _); [by right|by left].
Qed.

Lemma exec_no_task w ev w' id :
  inv w → exec w ev = Some w' →
  is_Some (jobs (service w) !! id) → tasks w !! id = None →
  jobs (service w') !! id = jobs (service w) !! id ∧ tasks w' !! id = None.
Proof.
  intros Hinv Hexec [job Hjob] Hnone. destruct (task_of ev) as [id'|] eqn:Hev.
  - destruct (exec_task _ _ _ _ Hinv Hexec Hev)
      as (job0 & job' & stage' & Hjob0 & _ & _ & _ & _ & Hjobs' & Htasks').
    assert (id' ≠ id) as Hne.
    { intros ->. destruct ev; simplify_eq/=; by rewrite Hnone in Hexec. }
    rewrite Hjobs', Htasks'. by rewrite !lookup_insert_ne.
  - destruct (exec_other _ _ _ Hexec Hev)
      as [[-> ->]|(id' & now & loop & _ & Hfresh & -> & ->)]; [done|].
    assert (id' ≠ id) as Hne by (intros ->; by rewrite Hjob in Hfresh).
    rewrite lookup_insert_ne by done. split; [done|].
    destruct loop; [by rewrite lookup_insert_ne|done].
Qed.

(** X11: a job created while no event loop is running has no task, and
    nothing ever gives it one: along any run its record stays the
    pending record of its creation. *)
Theorem job_without_task_stays_pending (w w1 w2 : World) (id now : string)
    (evs : list Event) :
  reachable w → exec w (Create id now false) = Some w1 → run w1 evs = Some w2 →
  jobs (service w2) !! id
  = Some {| status := pending; created_at := now; completed_at := None;
            result := None; error := None |}.
Proof.
  intros Hinv%reachable_inv Hexec Hrun.
  pose proof (exec_inv _ _ _ Hinv Hexec) as Hinv1.
  assert (jobs (service w1) !! id
          = Some {| status := pending; created_at := now; completed_at := None;
                    result := None; error := None |}
          ∧ tasks w1 !! id = None) as [Hjob1 Htask1].
  { simpl in Hexec. destruct (jobs (service w) !! id) eqn:Hfresh; [done|].
    simplify_eq/=. rewrite lookup_insert_eq. split; [done|].
    by apply Hinv. }
  clear Hexec Hinv. revert w1 Hinv1 Hjob1 Htask1 Hrun.
  induction evs as [|ev evs IH]; intros w1 Hinv1 Hjob1 Htask1 Hrun; simplify_eq/=; [done|].
  destruct (exec w1 ev) as [w1'|] eqn:Hexec; [|done]. simpl in Hrun.
  destruct (exec_no_task _ _ _ id Hinv1 Hexec) as [Hjob' Htask']; [by eauto|done|].
  eapply IH; [by eapply exec_inv| |done|done]. by rewrite Hjob'.
Qed.

Lemma exec_data w ev w' :
  exec w ev = Some w' → (∀ df, ev ≠ Loaded df) →
  data (service w') = data (service w).
Proof.
  intros Hexec Hev. destruct ev as [df|id now loop|id now|id now].
  - by destruct (Hev df).
  - simpl in Hexec. destruct (jobs (service w) !! id); [done|]. by simplify_eq/=.
  - simpl in Hexec. destruct (tasks w !! id) as [[]|]; try done.
    destruct (jobs (service w) !! id) as [job|] eqn:Hjob.
    + rewrite (_run_summary_job_begin_eq _ _ _ _ Hjob) in Hexec.
      destruct (data (service w)) eqn:Hdata; by simplify_eq/=.
    + unfold _run_summary_job_begin, on_exception, mutate in Hexec.
      rewrite Hjob in Hexec. by simplify_eq/=.
  - simpl in Hexec. destruct (tasks w !! id) as [[]|]; try done.
    destruct (jobs (service w) !! id) as [job|] eqn:Hjob.
    + rewrite (_run_summary_job_resume_eq _ _ _ _ Hjob) in Hexec. by simplify_eq/=.
    + unfold _run_summary_job_resume, on_exception, mutate in Hexec.
      rewrite Hjob in Hexec. destruct (summarize (service w)); by simplify_eq/=.
Qed.

(** X12: creating and running jobs never changes the held frame: along
    a run without a load, the frame at the end is the frame at the
    start. *)
Theorem jobs_leave_frame_alone (w w' : World) (evs : list Event) :
  run w evs = Some w' → Forall (λ ev, ∀ df, ev ≠ Loaded df) evs →
  data (service w') = data (service w).
Proof.
  revert w. induction evs as [|ev evs IH]; intros w Hrun Hevs; simplify_eq/=; [done|].
  destruct (exec w ev) as [w1|] eqn:Hexec; [|done]. simpl in Hrun.
  apply Forall_cons in Hevs as [Hev Hevs].
  rewrite (IH _ Hrun Hevs). by eapply exec_data.
Qed.
End Scheduling.

Lemma scheduled_world_reachable : @reachable small_backend scheduled_world.
Proof. exists (take 2 demo_events). vm_compute. reflexivity. Defined.

Lemma world0_reachable : @reachable small_backend world0.
Proof. by exists []. Defined.

Lemma job_reads_frame_held_at_wake_witness :
  ∃ job w',
    jobs (service scheduled_world) !! "j1" = Some job
    ∧ @run small_backend scheduled_world
        [Begin "j1" "2024-01-01T00:00:01"; Loaded text_frame;
         Wake "j1" "2024-01-01T00:00:03"] = Some w'
    ∧ data (service w') = Some text_frame
    ∧ jobs (service w') !! "j1"
      = Some (@outcome_of small_backend {| data := Some text_frame; jobs := ∅ |}
                "2024-01-01T00:00:03" (set_running job)).
Proof.
  apply (@job_reads_frame_held_at_wake small_backend scheduled_world "j1"
           "2024-01-01T00:00:01" "2024-01-01T00:00:03" text_frame);
    [exact scheduled_world_reachable | vm_compute; reflexivity | by eexists].
Defined.

Lemma task_can_finish_witness :
  ∃ evs w' job',
    (length evs ≤ 2)%nat ∧ Forall (λ ev, task_of ev = Some "j1") evs
    ∧ @run small_backend scheduled_world evs = Some w'
    ∧ jobs (service w') !! "j1" = Some job' ∧ terminal (status job')
    ∧ tasks w' !! "j1" = Some Ended.
Proof.
  apply (@task_can_finish small_backend scheduled_world "j1" "2024-01-01T00:00:01"
           Scheduled);
    [exact scheduled_world_reachable | vm_compute; reflexivity | discriminate].
Defined.

Lemma job_without_task_stays_pending_witness :
  jobs (service orphan_world_later) !! "j9"
  = Some {| status := pending; created_at := "2024-01-01T00:00:00";
            completed_at := None; result := None; error := None |}.
Proof.
  apply (@job_without_task_stays_pending small_backend world0 orphan_world
           orphan_world_later "j9" "2024-01-01T00:00:00" demo_events);
    [exact world0_reachable | vm_compute; reflexivity | vm_compute; reflexivity].
Defined.

Lemma jobs_leave_frame_alone_witness :
  data (service (default world0
                   (@run small_backend scheduled_world
                      [Begin "j1" "2024-01-01T00:00:01";
                       Create "j2" "2024-01-01T00:00:02" true;
                       Wake "j1" "2024-01-01T00:00:03"])))
  = data (service scheduled_world).
Proof.
  apply (@jobs_leave_frame_alone small_backend scheduled_world _
           [Begin "j1" "2024-01-01T00:00:01";
            Create "j2" "2024-01-01T00:00:02" true;
            Wake "j1" "2024-01-01T00:00:03"]);
    [vm_compute; reflexivity | repeat constructor; discriminate].
Defined.

(** ** The controller and the router *)

Lemma endswith_csv_example : endswith "data.csv" ".csv" = true ∧ endswith "csv" ".csv" = false.
Proof. by vm_compute. Qed.

Section ControllerFacts.
Context `{Backend}.

(** X13: the three answers of an upload: 400 exactly when the name
    does not end in [.csv], and then nothing is written or loaded (the
    service and the file store are as they were); 500 exactly when the
    name is accepted and the load raises; 200 exactly when the name is
    accepted and the load returns. *)
Theorem upload_csv_status (self : DataService) (files : gmap string string)
    (tmp_path : string) (file : health_controller.UploadFile) :
  let accepted := endswith (health_controller.filename file) ".csv" in
  let loaded :=
    load_csv_async self (<[tmp_path := health_controller.content file]> files) tmp_path in
  let '(self', files', response) :=
    health_controller.upload_csv self files tmp_path file in
  (status_code_of response = 400 ↔ accepted = false)
  ∧ (status_code_of response = 400 → self' = self ∧ files' = files)
  ∧ (status_code_of response = 500 ↔ accepted = true ∧ ∃ e, loaded = Raise e)
  ∧ (status_code_of response = 200 ↔ accepted = true ∧ ∃ r, loaded = Return r).
Proof.
  unfold health_controller.upload_csv.
  destruct (endswith _ _); simpl.
  - destruct (load_csv_async self _ tmp_path) as [e|[self1 df]]; simpl;
      (split; [done|]); (split; [done|]); split; split; try done;
      try (intros [_ [? ?]]; done); intros _; split; by eauto.
  - split; [done|]. split; [done|]. split; split; try done; by intros [? _].
Qed.

(** X14: an accepted upload answers with the number of rows and of
    columns that [get_schema] then reports as the shape, keeps the job
    registry, and removes its temporary file: if the name drawn was not
    in use, the file store is back to what it was. *)
Theorem upload_csv_success (self self' : DataService) (files files' : gmap string string)
    (tmp_path : string) (file : health_controller.UploadFile)
    (body : health_controller.UploadResponse) :
  health_controller.upload_csv self files tmp_path file = (self', files', OK body) →
  (∃ schema, get_schema self' = Return schema
     ∧ schema_shape schema
       = (health_controller.rows body, health_controller.columns body))
  ∧ health_controller.uploaded_filename body = health_controller.filename file
  ∧ jobs self' = jobs self
  ∧ files' !! tmp_path = None
  ∧ (files !! tmp_path = None → files' = files).
Proof.
  unfold health_controller.upload_csv.
  destruct (endswith _ _); simpl; [|done].
  destruct (load_csv_async self _ tmp_path) as [e|[self1 df]] eqn:Hload; [done|].
  intros [= <- <- <-]. simpl.
  unfold load_csv_async in Hload.
  destruct (read_csv _ tmp_path) as [|df'] eqn:Hread; [done|]. simpl in Hload.
  injection Hload as <- <-.
  split; [by eexists|]. split; [done|]. split; [done|].
  split; [apply lookup_delete_eq|].
  intros Hfresh. by rewrite delete_insert_eq, delete_id.
Qed.

(** X15: when the load raises, as it does on an upload without
    content, the upload answers 500 with the text of the exception
    after [Upload failed: ], the frame held before is still held, and
    the temporary file is left in the file store. *)
Theorem upload_csv_failure (self : DataService) (files : gmap string string)
    (tmp_path : string) (file : health_controller.UploadFile) :
  endswith (health_controller.filename file) ".csv" = true →
  (∀ e,
     load_csv_async self (<[tmp_path := health_controller.content file]> files) tmp_path
     = Raise e →
     health_controller.upload_csv self files tmp_path file
     = (self, <[tmp_path := health_controller.content file]> files,
        HTTPException 500 ("Upload failed: " ++ str e)))
  ∧ (health_controller.content file = EmptyString →
     ∃ msg,
       health_controller.upload_csv self files tmp_path file
       = (self, <[tmp_path := EmptyString]> files,
          HTTPException 500 ("Upload failed: " ++ msg))
       ∧ (<[tmp_path := EmptyString]> files) !! tmp_path = Some EmptyString).
Proof.
  intros Hext.
  assert (∀ e,
     load_csv_async self (<[tmp_path := health_controller.content file]> files) tmp_path
     = Raise e →
     health_controller.upload_csv self files tmp_path file
     = (self, <[tmp_path := health_controller.content file]> files,
        HTTPException 500 ("Upload failed: " ++ str e))) as Hraise.
  { intros e Hload. unfold health_controller.upload_csv. rewrite Hext. simpl.
    by rewrite Hload. }
  split; [exact Hraise|]. intros Hempty.
  destruct read_text_empty as [msg Hmsg]. exists msg.
  split; [|apply lookup_insert_eq].
  rewrite (Hraise (NoDataError msg)); [by rewrite Hempty|].
  unfold load_csv_async, read_csv. by rewrite Hempty, lookup_insert_eq, Hmsg.
Qed.
End ControllerFacts.

Lemma upload_csv_success_witness :
  (∃ schema, get_schema sample_service = Return schema
     ∧ schema_shape schema = (3%nat, 3%nat))
  ∧ "test.csv" = health_controller.filename fixture_upload
  ∧ jobs sample_service = jobs init
  ∧ (∅ : gmap string string) !! "/tmp/tmpk3.csv" = None
  ∧ ((∅ : gmap string string) !! "/tmp/tmpk3.csv" = None → (∅ : gmap string string) = ∅).
Proof.
  apply (@upload_csv_success small_backend init sample_service ∅ ∅ "/tmp/tmpk3.csv"
           fixture_upload
           {| health_controller.message := "File uploaded successfully";
              health_controller.uploaded_filename := "test.csv";
              health_controller.rows := 3; health_controller.columns := 3 |}).
  vm_compute. reflexivity.
Defined.

Lemma upload_csv_failure_witness :
  ∃ msg,
    @health_controller.upload_csv small_backend sample_service ∅ "/tmp/tmpk3.csv"
      empty_upload
    = (sample_service, <[ "/tmp/tmpk3.csv" := EmptyString ]> ∅,
       HTTPException 500 ("Upload failed: " ++ msg))
    ∧ (<[ "/tmp/tmpk3.csv" := EmptyString ]> (∅ : gmap string string))
        !! "/tmp/tmpk3.csv" = Some EmptyString.
Proof.
  apply (proj2 (@upload_csv_failure small_backend sample_service ∅ "/tmp/tmpk3.csv"
                  empty_upload ltac:(vm_compute; reflexivity)));
    reflexivity.
Defined.

(** With the small backend the answer to an upload without content. *)
Example upload_csv_empty :
  (@health_controller.upload_csv small_backend sample_service ∅ "/tmp/tmpk3.csv"
     empty_upload).2
  = HTTPException 500 "Upload failed: empty CSV".
Proof. vm_compute. reflexivity. Qed.

Lemma query_data_one_filter self df c val limit :
  data self = Some df → pl.wf df → (0 < limit < pl.USIZE_LIMIT)%Z →
  ∃ rows,
    query_data self [ {| column := c; value := val |} ] limit = Return rows
    ∧ (Z.of_nat (length rows) ≤ limit)%Z
    ∧ rows `sublist_of` pl.to_dicts df
    ∧ (c ∈ pl.columns df → Forall (λ r, row_matches c val r) rows)
    ∧ (c ∉ pl.columns df → rows = take (Z.to_nat limit) (pl.to_dicts df)).
Proof.
  intros Hdata Hwf Hlimit. rewrite (query_data_small _ _ _ _ Hdata Hwf) by lia.
  assert (∀ n, pl.head_len limit n = Z.to_nat limit) as Hlen.
  { intros n. unfold pl.head_len. destruct (Z.leb_spec 0 limit); [done|lia]. }
  rewrite Hlen. eexists. split; [reflexivity|].
  split; [rewrite length_take; lia|].
  split; [etrans; [apply sublist_take|apply sublist_filter]|]. split.
  - intros Hin. apply Forall_forall. intros r [_ Hpass]%elem_of_kept.
    unfold passes in Hpass. apply Forall_inv in Hpass. by apply Hpass.
  - intros Hout. rewrite filter_all; [done|].
    intros r. unfold passes. repeat constructor. simpl. tauto.
Qed.

(** X16: on a held frame and for a positive limit below 2^64, the
    sex endpoint answers on the column [SEX (DISPLAY)] and the year
    endpoint on the column [YEAR (DISPLAY)]; over a frame without that
    column the endpoint does not fail: it returns the first rows,
    whatever value was asked for.  From 2^64 on both endpoints answer
    500. *)
Theorem query_endpoints_answer (self : DataService) (df : pl.DataFrame)
    (val : string) (limit : Z) :
  data self = Some df → pl.wf df → (0 < limit)%Z →
  ((limit < 2 ^ 64)%Z →
     answers_query_on "SEX (DISPLAY)" val limit df
       (health_controller.query_by_sex self val limit)
     ∧ answers_query_on "YEAR (DISPLAY)" val limit df
         (health_controller.query_by_year self val limit))
  ∧ ((2 ^ 64 ≤ limit)%Z →
       health_controller.query_by_sex self val limit = HTTPException 500 "Query failed"
       ∧ health_controller.query_by_year self val limit
         = HTTPException 500 "Query failed").
Proof.
  intros Hdata Hwf Hlimit. change (2 ^ 64)%Z with pl.USIZE_LIMIT.
  unfold health_controller.query_by_sex, health_controller.query_by_year.
  split; intros Hbound.
  - split.
    + destruct (query_data_one_filter self df "SEX (DISPLAY)" val limit Hdata Hwf)
        as (rows & -> & ?); [lia|]. by eexists.
    + destruct (query_data_one_filter self df "YEAR (DISPLAY)" val limit Hdata Hwf)
        as (rows & -> & ?); [lia|]. by eexists.
  - by rewrite !(query_data_big _ _ _ _ Hdata Hbound).
Qed.

Lemma query_endpoints_answer_witness :
  answers_query_on "SEX (DISPLAY)" "Male" 100 text_frame
    (health_controller.query_by_sex text_service "Male" 100)
  ∧ answers_query_on "YEAR (DISPLAY)" "Male" 100 text_frame
      (health_controller.query_by_year text_service "Male" 100).
Proof.
  apply (proj1 (query_endpoints_answer text_service text_frame "Male" 100
                  eq_refl text_frame_wf ltac:(lia)));
    reflexivity.
Defined.

(** X17: the router lets a query through only with a limit from 1 to
    1000 and answers 422 otherwise; so, on well-formed frames, a query
    through the router answers 200, 400 or 422, on either endpoint 400
    exactly when the limit is accepted and no frame is held, and a body
    it returns has at most [limit], hence at most 1000, records. *)
Theorem router_limit_validation (self : DataService) (val : string) (limit : Z) :
  (∀ df, data self = Some df → pl.wf df) →
  let by_sex := health_router.query_by_sex self val limit in
  let by_year := health_router.query_by_year self val limit in
  (by_sex = RequestValidationError "limit" ↔ ¬ (1 ≤ limit ≤ 1000)%Z)
  ∧ (by_year = RequestValidationError "limit" ↔ ¬ (1 ≤ limit ≤ 1000)%Z)
  ∧ (by_sex = HTTPException 400 "No data loaded"
     ↔ (1 ≤ limit ≤ 1000)%Z ∧ data self = None)
  ∧ (by_year = HTTPException 400 "No data loaded"
     ↔ (1 ≤ limit ≤ 1000)%Z ∧ data self = None)
  ∧ (status_code_of by_sex ∈ [200; 400; 422]%Z)
  ∧ (status_code_of by_year ∈ [200; 400; 422]%Z)
  ∧ (∀ body, by_sex = OK body ∨ by_year = OK body →
       (Z.of_nat (health_controller.result_count body) ≤ limit ≤ 1000)%Z).
Proof.
  intros Hwf by_sex by_year. subst by_sex by_year.
  unfold health_router.query_by_sex, health_router.query_by_year, health_router.limit_ok.
  assert (∀ code : Z, code = 200 ∨ code = 400 ∨ code = 422 → code ∈ [200; 400; 422]%Z)
    as Hcode by (intros code; rewrite !elem_of_cons; tauto).
  destruct ((1 <=? limit)%Z && (limit <=? 1000)%Z) eqn:Hok.
  - assert (1 ≤ limit ≤ 1000)%Z as Hrange.
    { apply andb_prop in Hok as [?%Z.leb_le ?%Z.leb_le]. lia. }
    unfold health_controller.query_by_sex, health_controller.query_by_year.
    destruct (data self) as [df|] eqn:Hdata.
    + destruct (query_data_one_filter self df "SEX (DISPLAY)" val limit Hdata
                  (Hwf _ eq_refl)) as (rows1 & -> & Hlen1 & _);
        [unfold pl.USIZE_LIMIT; lia|].
      destruct (query_data_one_filter self df "YEAR (DISPLAY)" val limit Hdata
                  (Hwf _ eq_refl)) as (rows2 & -> & Hlen2 & _);
        [unfold pl.USIZE_LIMIT; lia|].
      split; [split; [done|lia]|]. split; [split; [done|lia]|].
      split; [split; [done|by intros [_ ?]]|].
      split; [split; [done|by intros [_ ?]]|].
      split; [apply Hcode; by left|]. split; [apply Hcode; by left|].
      intros body [[= <-]|[= <-]]; simpl; lia.
    + unfold query_data. rewrite Hdata. simpl.
      split; [split; [done|lia]|]. split; [split; [done|lia]|].
      split; [done|]. split; [done|].
      split; [apply Hcode; right; by left|]. split; [apply Hcode; right; by left|].
      by intros body [?|?].
  - assert (¬ (1 ≤ limit ≤ 1000)%Z) as Hrange.
    { intros [Hlo%Z.leb_le Hhi%Z.leb_le]. by rewrite Hlo, Hhi in Hok. }
    split; [done|]. split; [done|]. split; [split; [done|by intros [? _]]|].
    split; [split; [done|by intros [? _]]|].
    split; [apply Hcode; by do 2 right|]. split; [apply Hcode; by do 2 right|].
    by intros body [?|?].
Qed.

Lemma router_limit_validation_witness :
  (health_router.query_by_sex sample_service "Male" 100 = RequestValidationError "limit"
   ↔ ¬ (1 ≤ 100 ≤ 1000)%Z)
  ∧ (health_router.query_by_year sample_service "Male" 100 = RequestValidationError "limit"
     ↔ ¬ (1 ≤ 100 ≤ 1000)%Z)
  ∧ (health_router.query_by_sex sample_service "Male" 100
     = HTTPException 400 "No data loaded"
     ↔ (1 ≤ 100 ≤ 1000)%Z ∧ data sample_service = None)
  ∧ (health_router.query_by_year sample_service "Male" 100
     = HTTPException 400 "No data loaded"
     ↔ (1 ≤ 100 ≤ 1000)%Z ∧ data sample_service = None)
  ∧ (status_code_of (health_router.query_by_sex sample_service "Male" 100)
     ∈ [200; 400; 422]%Z)
  ∧ (status_code_of (health_router.query_by_year sample_service "Male" 100)
     ∈ [200; 400; 422]%Z)
  ∧ (∀ body,
       health_router.query_by_sex sample_service "Male" 100 = OK body
       ∨ health_router.query_by_year sample_service "Male" 100 = OK body →
       (Z.of_nat (health_controller.result_count body) ≤ 100 ≤ 1000)%Z).
Proof.
  apply (router_limit_validation sample_service "Male" 100).
  intros df [= <-]. exact sample_frame_wf.
Defined.

(** The three answers of the router: a body under an accepted limit on
    a held frame, 400 without a frame, 422 on a limit out of range. *)
Example router_answers :
  health_router.query_by_sex sample_service "Male" 100
  = OK {| health_controller.result_data :=
            [ [("SEX (DISPLAY)", Some (pl.VStr "Male"));
               ("YEAR (DISPLAY)", Some (pl.VInt 2000));
               ("Numeric", Some (pl.VInt 10))] ];
          health_controller.result_count := 1 |}
  ∧ health_router.query_by_year idle_service "2000" 100
    = HTTPException 400 "No data loaded"
  ∧ health_router.query_by_sex sample_service "Male" 0 = RequestValidationError "limit"
  ∧ health_router.query_by_year sample_service "2000" 1001
    = RequestValidationError "limit".
Proof. repeat split; vm_compute; reflexivity. Qed.

(** X18: the schema endpoint answers 400 with the text of the no-data
    error exactly when no frame is held and 200 with the schema
    otherwise; the job endpoint answers 404 with the text of the
    not-found error exactly when the identifier is not registered and
    200 with the record otherwise; neither ever answers 500. *)
Theorem schema_and_job_endpoints (self : DataService) (job_id : string) :
  (health_controller.get_schema self = HTTPException 400 "No data loaded"
   ↔ data self = None)
  ∧ (∀ df, data self = Some df →
       ∃ schema, get_schema self = Return schema
         ∧ health_controller.get_schema self = OK schema)
  ∧ (health_controller.get_job_result self job_id = HTTPException 404 "Job not found"
     ↔ jobs self !! job_id = None)
  ∧ (∀ job, jobs self !! job_id = Some job →
       health_controller.get_job_result self job_id
       = OK {| health_controller.response_job_id := job_id;
               health_controller.response_job := job |})
  ∧ status_code_of (health_controller.get_schema self) ≠ 500
  ∧ status_code_of (health_controller.get_job_result self job_id) ≠ 500.
Proof.
  unfold health_controller.get_schema, health_controller.get_job_result,
    get_schema, get_job_status.
  destruct (data self) as [df|], (jobs self !! job_id) as [job|]; simpl;
    split_and!; try done; try (by split);
    try (intros ? [= <-]; by eauto); by intros ? [= <-].
Qed.

(** X19: creating a job through the controller always registers a
    pending record with no completion time, result or error, and changes
    neither the held frame nor any other record; when the task cannot be
    handed to an event loop the answer is 500, and the record stays
    registered all the same. *)
Theorem create_summary_job_endpoint (self : DataService) (job_id now : string)
    (loop_running : bool) :
  let created :=
    {| status := pending; created_at := now; completed_at := None;
       result := None; error := None |} in
  let '(self', response) :=
    health_controller.create_summary_job self job_id now loop_running in
  jobs self' !! job_id = Some created
  ∧ data self' = data self
  ∧ (∀ other, other ≠ job_id → jobs self' !! other = jobs self !! other)
  ∧ response
    = if loop_running
      then OK {| health_controller.response_job_id := job_id;
                 health_controller.response_job := created |}
      else HTTPException 500 "Failed to create job".
Proof.
  unfold health_controller.create_summary_job, create_summary_job. simpl.
  rewrite lookup_insert_eq. split; [done|]. split; [done|]. split.
  - intros other Hne. by rewrite lookup_insert_ne.
  - destruct loop_running; simpl; [|done].
    unfold get_job_status. simpl. by rewrite lookup_insert_eq.
Qed.

(** ** Substring filters are exact *)

Lemma prefix_spec pat s : String.prefix pat s = true ↔ ∃ b, s = (pat ++ b)%string.
Proof.
  revert s. induction pat as [|c pat IH]; intros s.
  - split; [intros _; by exists s|by destruct s].
  - destruct s as [|c' s]; simpl.
    { split; [done|]. by intros [b Hb]. }
    destruct (ascii_dec c c') as [->|Hne].
    + rewrite IH. split; intros [b Hb]; exists b; [by rewrite Hb|by injection Hb].
    + split; [done|]. intros [b Hb]. by injection Hb.
Qed.

Lemma contains_spec s pat :
  contains s pat = true ↔ ∃ a b, s = (a ++ pat ++ b)%string.
Proof.
  induction s as [|c s IH]; cbn [contains].
  - rewrite orb_false_r, prefix_spec. split.
    + intros [b Hb]. by exists EmptyString, b.
    + intros (a & b & Hab). destruct a as [|? a]; [by eauto|done].
  - rewrite orb_true_iff, prefix_spec, IH. split.
    + intros [[b Hb]|(a & b & Hab)]; [by exists EmptyString, b|].
      exists (String c a), b. simpl. by rewrite Hab.
    + intros (a & b & Hab). destruct a as [|c' a]; [left; by eauto|].
      right. injection Hab as -> ->. by eauto.
Qed.

Lemma row_matches_intro c val (r : pl.Row) v :
  dict_get c r = Some (Some v) → contains (pl.to_utf8 v) val = true →
  row_matches c val r.
Proof. intros Hv Hc. unfold row_matches. rewrite Hv, Hc. done. Qed.



Section UploadThenQuery.
Context `{Backend}.

(** X20: after an accepted upload, a query endpoint called with a
    positive limit below 2^64 answers 200, with at most [limit] records
    and at most as many as the upload reported rows. *)
Theorem upload_then_query (self self' : DataService) (files files' : gmap string string)
    (tmp_path : string) (file : health_controller.UploadFile)
    (body : health_controller.UploadResponse) (val : string) (limit : Z) :
  health_controller.upload_csv self files tmp_path file = (self', files', OK body) →
  (0 < limit < 2 ^ 64)%Z →
  ∃ answer,
    health_controller.query_by_sex self' val limit = OK answer
    ∧ (Z.of_nat (health_controller.result_count answer) ≤ limit)%Z
    ∧ (health_controller.result_count answer ≤ health_controller.rows body)%nat.
Proof.
  unfold health_controller.upload_csv.
  destruct (endswith _ _); simpl; [|done].
  destruct (load_csv_async self _ tmp_path) as [e|[self1 df]] eqn:Hload; [done|].
  intros [= <- <- <-] Hlimit. change (2 ^ 64)%Z with pl.USIZE_LIMIT in Hlimit.
  unfold load_csv_async in Hload.
  destruct (read_csv _ tmp_path) as [|df'] eqn:Hread; [done|]. simpl in Hload.
  injection Hload as <- <-.
  pose proof (read_csv_wf _ _ _ Hread) as Hwf.
  destruct (query_data_one_filter {| data := Some df'; jobs := jobs self |} df'
              "SEX (DISPLAY)" val limit eq_refl Hwf Hlimit)
    as (rows & Hq & Hlen & Hsub & _).
  unfold health_controller.query_by_sex. rewrite Hq.
  eexists. split; [reflexivity|]. simpl. split; [done|].
  apply sublist_length in Hsub. by rewrite length_to_dicts in Hsub.
Qed.
End UploadThenQuery.

Lemma upload_then_query_witness :
  ∃ answer,
    health_controller.query_by_sex sample_service "ale" 5 = OK answer
    ∧ (Z.of_nat (health_controller.result_count answer) ≤ 5)%Z
    ∧ (health_controller.result_count answer ≤ 3)%nat.
Proof.
  apply (@upload_then_query small_backend init sample_service ∅ ∅ "/tmp/tmpk3.csv"
           fixture_upload
           {| health_controller.message := "File uploaded successfully";
              health_controller.uploaded_filename := "test.csv";
              health_controller.rows := 3; health_controller.columns := 3 |} "ale" 5);
    [vm_compute; reflexivity | lia].
Defined.

(** ** The distributions, column by column *)


Lemma wide_frame_wf : pl.wf wide_frame.
Proof. apply (bool_decide_unpack _). vm_compute. reflexivity. Defined.


(** On the six columns: the sixth has no entry, the column named
    [count] has the error marker, the columns after it are computed,
    and the codes are cut after ten lines. *)
Example distributions_of_wide_frame :
  keys <$> @_get_distributions picky_backend wide_service
  = Return ["code"; "count"; "third"; "fourth"; "fifth"]
  ∧ dict_get "sixth" <$> @_get_distributions picky_backend wide_service = Return None
  ∧ dict_get "count" <$> @_get_distributions picky_backend wide_service
    = Return (Some (DistributionError "Could not compute distribution"))
  ∧ dict_get "fifth" <$> @_get_distributions picky_backend wide_service
    = Return (Some (Counts [ [("fifth", Some (pl.VInt 5)); ("count", Some (pl.VInt 12))] ]))
  ∧ dict_get "code" <$> @_get_distributions picky_backend wide_service
    = Return (Some (Counts ((λ z, [("code", Some (pl.VInt z)); ("count", Some (pl.VInt 1))])
                              <$> [0; 1; 2; 3; 4; 5; 6; 7; 8; 9]%Z))).
Proof. repeat split; vm_compute; reflexivity. Qed.
